(** * VoiceWakeRuntime: the wake-word capture state machine

    A shallow embedding of the actor [VoiceWakeRuntime]: the trigger matcher
    ([matches], [trimmedAfterTrigger]), the capture session and its
    "heard beyond trigger" flag, the silence/timeout monitor, finalization
    with its debounce, and the configuration reconciliation of [refresh].

    Modelling conventions.
    - A Swift [String] is a [string] whose characters are the Unicode
      scalars U+0000 to U+00FF.  Case mapping and the whitespace class are
      those of Swift on that range, where lowercasing keeps every character
      at its offset: an index taken in [lowercased text] denotes the same
      position in [text].  The module [Wide] models texts of any scalars,
      with indices as offsets in the UTF-8 form, for the cut that
      [trimmedAfterTrigger] makes; the two models agree on U+0000 to
      U+00FF.
    - A [Date] is an integer number of milliseconds and a [TimeInterval] a
      difference of two of them: 1.0 s is 1000, 8.0 s is 8000, 0.35 s is 350.
    - The actor serialises its methods; each method is a state transformer
      that also returns the notifications it sent, in order.  Every reading
      of the clock ([Date()]) is an argument of the method that performs it.
    - Work handed to a new [Task] is recorded as a [Spawn...] effect and run
      by a later call of the method it names. *)

From Stdlib Require Import ZArith List Bool Ascii String Lia.
Import ListNotations.
Local Open Scope string_scope.
Local Open Scope Z_scope.

(** ** Strings *)

Module Str.

(** [Character.isWhitespace] and membership in
    [CharacterSet.whitespacesAndNewlines], which agree up to U+00FF: tab,
    line feed, vertical tab, form feed, carriage return, space, next line
    (U+0085) and no-break space (U+00A0). *)
Definition isWhitespace (c : ascii) : bool :=
  let n := nat_of_ascii c in
  ((9 <=? n) && (n <=? 13))%nat || (n =? 32)%nat
  || (n =? 133)%nat || (n =? 160)%nat.

(** One character of [lowercased()]: A..Z go to a..z, and the capital
    letters U+00C0 to U+00DE, the multiplication sign U+00D7 apart, to the
    small letters U+00E0 to U+00FE. *)
Definition lowerChar (c : ascii) : ascii :=
  let n := nat_of_ascii c in
  if ((65 <=? n) && (n <=? 90))%nat
     || ((192 <=? n) && (n <=? 222) && negb (n =? 215))%nat
  then ascii_of_nat (n + 32) else c.

Definition isEmpty (s : string) : bool :=
  match s with
  | EmptyString => true
  | String _ _ => false
  end.

Fixpoint lowercased (s : string) : string :=
  match s with
  | EmptyString => EmptyString
  | String c r => String (lowerChar c) (lowercased r)
  end.

Fixpoint dropLeadingWhitespace (s : string) : string :=
  match s with
  | EmptyString => EmptyString
  | String c r => if isWhitespace c then dropLeadingWhitespace r else s
  end.

Fixpoint dropTrailingWhitespace (s : string) : string :=
  match s with
  | EmptyString => EmptyString
  | String c r =>
      let r' := dropTrailingWhitespace r in
      if isWhitespace c && isEmpty r' then EmptyString else String c r'
  end.

(** [s.trimmingCharacters(in: .whitespacesAndNewlines)] *)
Definition trimmingWhitespace (s : string) : string :=
  dropTrailingWhitespace (dropLeadingWhitespace s).

Fixpoint hasPrefix (p s : string) : bool :=
  match p, s with
  | EmptyString, _ => true
  | String a p', String b s' => Ascii.eqb a b && hasPrefix p' s'
  | String _ _, EmptyString => false
  end.

(** [s.contains(t)] for a non-empty needle: some position of [s] starts
    with [t]. *)
Fixpoint contains (s t : string) : bool :=
  hasPrefix t s ||
  match s with
  | EmptyString => false
  | String _ r => contains r t
  end.

(** [s.range(of: t)]: the offsets of the first occurrence of [t] in [s],
    lower bound and upper bound. *)
Fixpoint rangeOf (s t : string) : option (nat * nat) :=
  if hasPrefix t s then Some (0%nat, String.length t)
  else
    match s with
    | EmptyString => None
    | String _ r =>
        match rangeOf r t with
        | Some (lo, hi) => Some (S lo, S hi)
        | None => None
        end
    end.

(** [s[i...]]: the text from offset [i] on. *)
Fixpoint suffixFrom (i : nat) (s : string) : string :=
  match i, s with
  | O, _ => s
  | S i', String _ r => suffixFrom i' r
  | S _, EmptyString => EmptyString
  end.

(** [s.split(whereSeparator: { $0.isWhitespace })], which omits empty
    subsequences: [word] is the word being read. *)
Fixpoint splitFrom (word s : string) : list string :=
  match s with
  | EmptyString => if isEmpty word then [] else [word]
  | String c r =>
      if isWhitespace c
      then (if isEmpty word then splitFrom EmptyString r
            else word :: splitFrom EmptyString r)
      else splitFrom (word ++ String c EmptyString) r
  end.

Definition splitWhitespace (s : string) : list string :=
  splitFrom EmptyString s.

End Str.

(** ** Time and configuration *)

Definition Date := Z.
Definition TimeInterval := Z.

Definition addingTimeInterval (d : Date) (i : TimeInterval) : Date := d + i.
Definition timeIntervalSince (d since : Date) : TimeInterval := d - since.

(** Tunables. *)
Definition silenceWindow : TimeInterval := 1000.
Definition captureHardStop : TimeInterval := 8000.
Definition debounceAfterSend : TimeInterval := 350.
(** The poll interval of the monitor, [Task.sleep(nanoseconds: 200_000_000)]. *)
Definition pollInterval : TimeInterval := 200.

Record RuntimeConfig : Type := {
  triggers : list string;
  micID : option string;
  localeID : option string
}.

Fixpoint list_eqb {A : Type} (eqb : A -> A -> bool) (l1 l2 : list A) : bool :=
  match l1, l2 with
  | [], [] => true
  | a :: l1', b :: l2' => eqb a b && list_eqb eqb l1' l2'
  | _, _ => false
  end.

Definition option_eqb {A : Type} (eqb : A -> A -> bool) (o1 o2 : option A) : bool :=
  match o1, o2 with
  | None, None => true
  | Some a, Some b => eqb a b
  | _, _ => false
  end.

(** The synthesized [Equatable] of [RuntimeConfig]: field by field. *)
Definition RuntimeConfig_eqb (c1 c2 : RuntimeConfig) : bool :=
  list_eqb String.eqb (triggers c1) (triggers c2)
  && option_eqb String.eqb (micID c1) (micID c2)
  && option_eqb String.eqb (localeID c1) (localeID c2).

Definition isSome {A : Type} (o : option A) : bool :=
  match o with Some _ => true | None => false end.

(** The part of [AppState] that [refresh] reads. *)
Record AppState : Type := {
  swabbleEnabled : bool;
  swabbleTriggerWords : list string;
  voiceWakeMicID : string;
  voiceWakeLocaleID : string
}.

Definition nonEmptyOrNil (s : string) : option string :=
  if Str.isEmpty s then None else Some s.

Definition snapshotConfig (state : AppState) : RuntimeConfig :=
  {| triggers := swabbleTriggerWords state;
     micID := nonEmptyOrNil (voiceWakeMicID state);
     localeID := nonEmptyOrNil (voiceWakeLocaleID state) |}.

(** ** The trigger matcher *)

(** The token of a trigger: lowercased, then trimmed. *)
Definition triggerToken (trigger : string) : string :=
  Str.trimmingWhitespace (Str.lowercased trigger).

Fixpoint matchesAny (normalized : string) (triggers : list string) : bool :=
  match triggers with
  | [] => false
  | trigger :: rest =>
      let t := triggerToken trigger in
      if Str.isEmpty t then matchesAny normalized rest
      else if Str.contains normalized t then true
      else matchesAny normalized rest
  end.

Definition matches (text : string) (triggers : list string) : bool :=
  if Str.isEmpty text then false
  else matchesAny (Str.lowercased text) triggers.

Fixpoint trimmedAfterFirst (text lower : string) (triggers : list string) : string :=
  match triggers with
  | [] => text
  | trigger :: rest =>
      let token := triggerToken trigger in
      if Str.isEmpty token then trimmedAfterFirst text lower rest
      else
        match Str.rangeOf lower token with
        | None => trimmedAfterFirst text lower rest
        | Some (_, after) => Str.trimmingWhitespace (Str.suffixFrom after text)
        end
  end.

Definition trimmedAfterTrigger (text : string) (triggers : list string) : string :=
  trimmedAfterFirst text (Str.lowercased text) triggers.

Definition textHasBeyondTriggerContent (text : string) : bool :=
  (1 <? List.length (Str.splitWhitespace text))%nat.

(** ** The runtime state *)

Record Runtime : Type := {
  (** the [SFSpeechRecognizer] and the locale identifier it was made for *)
  recognizer : option (option string);
  audioEngineRunning : bool;
  inputTapInstalled : bool;
  recognitionRequest : bool;
  (** the running recognition task; its callback holds the configuration *)
  recognitionTask : option RuntimeConfig;
  lastHeard : option Date;
  captureStartedAt : option Date;
  (** the handle of the monitor task *)
  captureTask : option RuntimeConfig;
  capturedTranscript : string;
  isCapturing : bool;
  heardBeyondTrigger : bool;
  cooldownUntil : option Date;
  currentConfig : option RuntimeConfig
}.

(** The state of a fresh actor. *)
Definition initial : Runtime :=
  {| recognizer := None; audioEngineRunning := false;
     inputTapInstalled := false; recognitionRequest := false;
     recognitionTask := None; lastHeard := None; captureStartedAt := None;
     captureTask := None; capturedTranscript := ""; isCapturing := false;
     heardBeyondTrigger := false; cooldownUntil := None;
     currentConfig := None |}.

Definition set_recognizer v (s : Runtime) : Runtime :=
  {| recognizer := v; audioEngineRunning := audioEngineRunning s;
     inputTapInstalled := inputTapInstalled s;
     recognitionRequest := recognitionRequest s;
     recognitionTask := recognitionTask s; lastHeard := lastHeard s;
     captureStartedAt := captureStartedAt s; captureTask := captureTask s;
     capturedTranscript := capturedTranscript s; isCapturing := isCapturing s;
     heardBeyondTrigger := heardBeyondTrigger s;
     cooldownUntil := cooldownUntil s; currentConfig := currentConfig s |}.

Definition set_audioEngineRunning v (s : Runtime) : Runtime :=
  {| recognizer := recognizer s; audioEngineRunning := v;
     inputTapInstalled := inputTapInstalled s;
     recognitionRequest := recognitionRequest s;
     recognitionTask := recognitionTask s; lastHeard := lastHeard s;
     captureStartedAt := captureStartedAt s; captureTask := captureTask s;
     capturedTranscript := capturedTranscript s; isCapturing := isCapturing s;
     heardBeyondTrigger := heardBeyondTrigger s;
     cooldownUntil := cooldownUntil s; currentConfig := currentConfig s |}.

Definition set_inputTapInstalled v (s : Runtime) : Runtime :=
  {| recognizer := recognizer s; audioEngineRunning := audioEngineRunning s;
     inputTapInstalled := v;
     recognitionRequest := recognitionRequest s;
     recognitionTask := recognitionTask s; lastHeard := lastHeard s;
     captureStartedAt := captureStartedAt s; captureTask := captureTask s;
     capturedTranscript := capturedTranscript s; isCapturing := isCapturing s;
     heardBeyondTrigger := heardBeyondTrigger s;
     cooldownUntil := cooldownUntil s; currentConfig := currentConfig s |}.

Definition set_recognitionRequest v (s : Runtime) : Runtime :=
  {| recognizer := recognizer s; audioEngineRunning := audioEngineRunning s;
     inputTapInstalled := inputTapInstalled s;
     recognitionRequest := v;
     recognitionTask := recognitionTask s; lastHeard := lastHeard s;
     captureStartedAt := captureStartedAt s; captureTask := captureTask s;
     capturedTranscript := capturedTranscript s; isCapturing := isCapturing s;
     heardBeyondTrigger := heardBeyondTrigger s;
     cooldownUntil := cooldownUntil s; currentConfig := currentConfig s |}.

Definition set_recognitionTask v (s : Runtime) : Runtime :=
  {| recognizer := recognizer s; audioEngineRunning := audioEngineRunning s;
     inputTapInstalled := inputTapInstalled s;
     recognitionRequest := recognitionRequest s;
     recognitionTask := v; lastHeard := lastHeard s;
     captureStartedAt := captureStartedAt s; captureTask := captureTask s;
     capturedTranscript := capturedTranscript s; isCapturing := isCapturing s;
     heardBeyondTrigger := heardBeyondTrigger s;
     cooldownUntil := cooldownUntil s; currentConfig := currentConfig s |}.

Definition set_lastHeard v (s : Runtime) : Runtime :=
  {| recognizer := recognizer s; audioEngineRunning := audioEngineRunning s;
     inputTapInstalled := inputTapInstalled s;
     recognitionRequest := recognitionRequest s;
     recognitionTask := recognitionTask s; lastHeard := v;
     captureStartedAt := captureStartedAt s; captureTask := captureTask s;
     capturedTranscript := capturedTranscript s; isCapturing := isCapturing s;
     heardBeyondTrigger := heardBeyondTrigger s;
     cooldownUntil := cooldownUntil s; currentConfig := currentConfig s |}.

Definition set_captureStartedAt v (s : Runtime) : Runtime :=
  {| recognizer := recognizer s; audioEngineRunning := audioEngineRunning s;
     inputTapInstalled := inputTapInstalled s;
     recognitionRequest := recognitionRequest s;
     recognitionTask := recognitionTask s; lastHeard := lastHeard s;
     captureStartedAt := v; captureTask := captureTask s;
     capturedTranscript := capturedTranscript s; isCapturing := isCapturing s;
     heardBeyondTrigger := heardBeyondTrigger s;
     cooldownUntil := cooldownUntil s; currentConfig := currentConfig s |}.

Definition set_captureTask v (s : Runtime) : Runtime :=
  {| recognizer := recognizer s; audioEngineRunning := audioEngineRunning s;
     inputTapInstalled := inputTapInstalled s;
     recognitionRequest := recognitionRequest s;
     recognitionTask := recognitionTask s; lastHeard := lastHeard s;
     captureStartedAt := captureStartedAt s; captureTask := v;
     capturedTranscript := capturedTranscript s; isCapturing := isCapturing s;
     heardBeyondTrigger := heardBeyondTrigger s;
     cooldownUntil := cooldownUntil s; currentConfig := currentConfig s |}.

Definition set_capturedTranscript v (s : Runtime) : Runtime :=
  {| recognizer := recognizer s; audioEngineRunning := audioEngineRunning s;
     inputTapInstalled := inputTapInstalled s;
     recognitionRequest := recognitionRequest s;
     recognitionTask := recognitionTask s; lastHeard := lastHeard s;
     captureStartedAt := captureStartedAt s; captureTask := captureTask s;
     capturedTranscript := v; isCapturing := isCapturing s;
     heardBeyondTrigger := heardBeyondTrigger s;
     cooldownUntil := cooldownUntil s; currentConfig := currentConfig s |}.

Definition set_isCapturing v (s : Runtime) : Runtime :=
  {| recognizer := recognizer s; audioEngineRunning := audioEngineRunning s;
     inputTapInstalled := inputTapInstalled s;
     recognitionRequest := recognitionRequest s;
     recognitionTask := recognitionTask s; lastHeard := lastHeard s;
     captureStartedAt := captureStartedAt s; captureTask := captureTask s;
     capturedTranscript := capturedTranscript s; isCapturing := v;
     heardBeyondTrigger := heardBeyondTrigger s;
     cooldownUntil := cooldownUntil s; currentConfig := currentConfig s |}.

Definition set_heardBeyondTrigger v (s : Runtime) : Runtime :=
  {| recognizer := recognizer s; audioEngineRunning := audioEngineRunning s;
     inputTapInstalled := inputTapInstalled s;
     recognitionRequest := recognitionRequest s;
     recognitionTask := recognitionTask s; lastHeard := lastHeard s;
     captureStartedAt := captureStartedAt s; captureTask := captureTask s;
     capturedTranscript := capturedTranscript s; isCapturing := isCapturing s;
     heardBeyondTrigger := v;
     cooldownUntil := cooldownUntil s; currentConfig := currentConfig s |}.

Definition set_cooldownUntil v (s : Runtime) : Runtime :=
  {| recognizer := recognizer s; audioEngineRunning := audioEngineRunning s;
     inputTapInstalled := inputTapInstalled s;
     recognitionRequest := recognitionRequest s;
     recognitionTask := recognitionTask s; lastHeard := lastHeard s;
     captureStartedAt := captureStartedAt s; captureTask := captureTask s;
     capturedTranscript := capturedTranscript s; isCapturing := isCapturing s;
     heardBeyondTrigger := heardBeyondTrigger s;
     cooldownUntil := v; currentConfig := currentConfig s |}.

Definition set_currentConfig v (s : Runtime) : Runtime :=
  {| recognizer := recognizer s; audioEngineRunning := audioEngineRunning s;
     inputTapInstalled := inputTapInstalled s;
     recognitionRequest := recognitionRequest s;
     recognitionTask := recognitionTask s; lastHeard := lastHeard s;
     captureStartedAt := captureStartedAt s; captureTask := captureTask s;
     capturedTranscript := capturedTranscript s; isCapturing := isCapturing s;
     heardBeyondTrigger := heardBeyondTrigger s;
     cooldownUntil := cooldownUntil s; currentConfig := v |}.

(** ** Notifications and the method monad *)

Inductive LogEntry : Type :=
  | PermissionsMissing
  | RecognizerUnavailable
  | RuntimeStarted
  | StartFailed
  | RuntimeStopped
  | RecognitionError (description : string).

Inductive DismissReason : Type :=
  | Empty.

(** What the environment decides when [start] runs: whether
    [SFSpeechRecognizer(locale:)] yields a recognizer, whether it is
    available, and whether [audioEngine.start()] returns or throws. *)
Record StartEnv : Type := {
  recognizerCreated : bool;
  recognizerAvailable : bool;
  engineStarts : bool
}.

Definition startSucceeds : StartEnv :=
  {| recognizerCreated := true; recognizerAvailable := true;
     engineStarts := true |}.

Section Methods.

(** The forward-routing configuration of [AppStateStore], which the runtime
    reads and hands on without looking into it. *)
Variable ForwardConfig : Type.

Inductive Effect : Type :=
  | Log (entry : LogEntry)
  (** [VoiceWakeOverlayController.shared.dismiss()] *)
  | OverlayDismiss
  (** [VoiceWakeOverlayController.shared.dismiss(reason:)] *)
  | OverlayDismissReason (reason : DismissReason)
  | OverlayShowPartial (transcript : string)
  | OverlayPresentFinal (transcript : string) (forwardConfig : ForwardConfig)
      (delay : TimeInterval)
  | TriggerVoiceEars
  | StopVoiceEars
  (** [Task { await self.start(with: current) }] *)
  | SpawnStart (config : RuntimeConfig)
  (** [Task { await self.monitorCapture(config: config) }] *)
  | SpawnMonitor (config : RuntimeConfig)
  (** [Task.sleep] of the monitor *)
  | Sleep (interval : TimeInterval).

Definition M (A : Type) : Type := Runtime -> A * Runtime * list Effect.

Definition ret {A : Type} (a : A) : M A := fun s => (a, s, []).

Definition bind {A B : Type} (m : M A) (k : A -> M B) : M B :=
  fun s =>
    let '(a, s1, e1) := m s in
    let '(b, s2, e2) := k a s1 in
    (b, s2, (e1 ++ e2)%list).

Definition gets {A : Type} (f : Runtime -> A) : M A := fun s => (f s, s, []).
Definition modify (f : Runtime -> Runtime) : M unit := fun s => (tt, f s, []).
Definition emit (e : Effect) : M unit := fun s => (tt, s, [e]).

Definition stateOf {A : Type} (r : A * Runtime * list Effect) : Runtime :=
  snd (fst r).
Definition effectsOf {A : Type} (r : A * Runtime * list Effect) : list Effect :=
  snd r.
Definition valueOf {A : Type} (r : A * Runtime * list Effect) : A :=
  fst (fst r).

Notation "x <- m ;; k" := (bind m (fun x => k))
  (at level 61, m at next level, right associativity).
Notation "m ;; k" := (bind m (fun _ => k))
  (at level 61, right associativity).

(** *** Lifecycle *)

Definition stop : M unit :=
  modify (set_captureTask None) ;;
  modify (set_isCapturing false) ;;
  modify (set_capturedTranscript "") ;;
  modify (set_captureStartedAt None) ;;
  modify (set_recognitionTask None) ;;
  modify (set_recognitionRequest false) ;;
  modify (set_inputTapInstalled false) ;;
  modify (set_audioEngineRunning false) ;;
  modify (set_currentConfig None) ;;
  emit (Log RuntimeStopped) ;;
  emit OverlayDismiss.

Definition configureSession (localeID : option string) (env : StartEnv) : M unit :=
  modify (set_recognizer (if recognizerCreated env then Some localeID else None)).

Definition start (config : RuntimeConfig) (now : Date) (env : StartEnv) : M unit :=
  configureSession (localeID config) env ;;
  r <- gets recognizer ;;
  if negb (isSome r && recognizerAvailable env) then
    emit (Log RecognizerUnavailable)
  else
    modify (set_recognitionRequest true) ;;
    modify (set_inputTapInstalled true) ;;
    if engineStarts env then
      modify (set_audioEngineRunning true) ;;
      modify (set_currentConfig (Some config)) ;;
      modify (set_lastHeard (Some now)) ;;
      modify (set_cooldownUntil None) ;;
      modify (set_recognitionTask (Some config)) ;;
      emit (Log RuntimeStarted)
    else
      emit (Log StartFailed) ;;
      stop.

Definition refresh (voiceWakeSupported : bool) (state : AppState)
    (permissionsGranted : bool) (now : Date) (env : StartEnv) : M unit :=
  let enabled := swabbleEnabled state in
  let config := snapshotConfig state in
  if negb (voiceWakeSupported && enabled) then stop
  else if negb permissionsGranted then
    emit (Log PermissionsMissing) ;;
    stop
  else
    current <- gets currentConfig ;;
    task <- gets recognitionTask ;;
    if option_eqb RuntimeConfig_eqb (Some config) current && isSome task then
      ret tt
    else
      stop ;;
      start config now env.

Definition restartRecognizer : M unit :=
  current <- gets currentConfig ;;
  stop ;;
  match current with
  | Some current => emit (SpawnStart current)
  | None => ret tt
  end.

(** *** Capture *)

Definition updateHeardBeyondTrigger (transcript : string) : M unit :=
  heard <- gets heardBeyondTrigger ;;
  if negb heard && textHasBeyondTriggerContent transcript then
    modify (set_heardBeyondTrigger true)
  else ret tt.

Definition beginCapture (transcript : string) (config : RuntimeConfig)
    (now : Date) : M unit :=
  modify (set_isCapturing true) ;;
  modify (set_capturedTranscript (trimmedAfterTrigger transcript (triggers config))) ;;
  modify (set_captureStartedAt (Some now)) ;;
  modify (set_cooldownUntil None) ;;
  modify (set_heardBeyondTrigger (textHasBeyondTriggerContent transcript)) ;;
  snapshot <- gets capturedTranscript ;;
  emit (OverlayShowPartial snapshot) ;;
  emit TriggerVoiceEars ;;
  modify (set_captureTask (Some config)) ;;
  emit (SpawnMonitor config).

Definition finalizeCapture (config : RuntimeConfig) (forwardConfig : ForwardConfig)
    (now : Date) : M unit :=
  capturing <- gets isCapturing ;;
  if negb capturing then ret tt
  else
    modify (set_isCapturing false) ;;
    modify (set_captureTask None) ;;
    captured <- gets capturedTranscript ;;
    let finalTranscript := Str.trimmingWhitespace captured in
    modify (set_capturedTranscript "") ;;
    modify (set_captureStartedAt None) ;;
    modify (set_lastHeard None) ;;
    heard <- gets heardBeyondTrigger ;;
    modify (set_heardBeyondTrigger false) ;;
    emit StopVoiceEars ;;
    if Str.isEmpty finalTranscript then
      emit (OverlayDismissReason Empty) ;;
      modify (set_cooldownUntil (Some (addingTimeInterval now debounceAfterSend))) ;;
      restartRecognizer
    else
      let delay : TimeInterval := if heard then 1000 else 3000 in
      emit (OverlayPresentFinal finalTranscript forwardConfig delay) ;;
      modify (set_cooldownUntil (Some (addingTimeInterval now debounceAfterSend))) ;;
      restartRecognizer.

(** [now] is the clock reading of [handleRecognition], [captureNow] the one
    [beginCapture] takes for [captureStartedAt]. *)
Definition handleRecognition (transcript : option string) (error : option string)
    (config : RuntimeConfig) (now captureNow : Date) : M unit :=
  match error with
  | Some description => emit (Log (RecognitionError description))
  | None => ret tt
  end ;;
  match transcript with
  | None => ret tt
  | Some transcript =>
      (if negb (Str.isEmpty transcript) then
         modify (set_lastHeard (Some now)) ;;
         capturing <- gets isCapturing ;;
         if capturing then
           modify (set_capturedTranscript
                     (trimmedAfterTrigger transcript (triggers config))) ;;
           updateHeardBeyondTrigger transcript ;;
           snapshot <- gets capturedTranscript ;;
           emit (OverlayShowPartial snapshot)
         else ret tt
       else ret tt) ;;
      capturing <- gets isCapturing ;;
      if capturing then ret tt
      else if matches transcript (triggers config) then
        cooldown <- gets cooldownUntil ;;
        match cooldown with
        | Some cooldown =>
            if now <? cooldown then ret tt
            else beginCapture transcript config captureNow
        | None => beginCapture transcript config captureNow
        end
      else ret tt
  end.

(** *** The monitor *)

(** The locals of [monitorCapture]. *)
Record MonitorFrame : Type := {
  hardStop : Date;
  silentStrikes : Z
}.

(** Entry of [monitorCapture], up to the loop: [now] is used when no capture
    start is recorded. *)
Definition monitorEnter (now : Date) : M MonitorFrame :=
  started <- gets captureStartedAt ;;
  let start := match started with Some d => d | None => now end in
  ret {| hardStop := addingTimeInterval start captureHardStop;
         silentStrikes := 0 |}.

(** One turn of the loop of [monitorCapture], taken at [now]: [None] when the
    method returns, the frame of the next turn when it goes to sleep.
    [finalizeNow] is the clock reading of [finalizeCapture]. *)
Definition monitorPoll (config : RuntimeConfig) (forwardConfig : ForwardConfig)
    (frame : MonitorFrame) (now finalizeNow : Date) : M (option MonitorFrame) :=
  capturing <- gets isCapturing ;;
  if negb capturing then ret None
  else if hardStop frame <=? now then
    finalizeCapture config forwardConfig finalizeNow ;;
    ret None
  else
    last <- gets lastHeard ;;
    let silent :=
      match last with
      | Some last => silenceWindow <=? timeIntervalSince now last
      | None => false
      end in
    if silent then
      let strikes := silentStrikes frame + 1 in
      if 2 <=? strikes then
        finalizeCapture config forwardConfig finalizeNow ;;
        ret None
      else
        emit (Sleep pollInterval) ;;
        ret (Some {| hardStop := hardStop frame; silentStrikes := strikes |})
    else
      emit (Sleep pollInterval) ;;
      ret (Some {| hardStop := hardStop frame; silentStrikes := 0 |}).

(** *** Runs *)

(** A transcript update delivered by the recognition callback. *)
Record Update : Type := {
  updTranscript : string;
  updError : option string;
  updNow : Date
}.

Fixpoint feed (config : RuntimeConfig) (updates : list Update) : M unit :=
  match updates with
  | [] => ret tt
  | u :: rest =>
      handleRecognition (Some (updTranscript u)) (updError u) config
        (updNow u) (updNow u) ;;
      feed config rest
  end.

(** *** The monitor at work *)

(** What happens around one turn of the monitor loop: the recognition
    callbacks that the actor serves while the monitor sleeps, then the clock
    readings of the turn and of the finalization it may perform. *)
Record Tick : Type := {
  arrivals : list Update;
  pollNow : Date;
  pollFinalizeNow : Date
}.

(** The loop of [monitorCapture] over the turns of [ticks]: [None] when the
    method has returned, the frame it sleeps with when the turns run out. *)
Fixpoint monitorLoop (config : RuntimeConfig) (forwardConfig : ForwardConfig)
    (frame : MonitorFrame) (ticks : list Tick) : M (option MonitorFrame) :=
  match ticks with
  | [] => ret (Some frame)
  | t :: rest =>
      feed config (arrivals t) ;;
      next <- monitorPoll config forwardConfig frame (pollNow t) (pollFinalizeNow t) ;;
      match next with
      | None => ret None
      | Some frame' => monitorLoop config forwardConfig frame' rest
      end
  end.

Definition monitorCapture (config : RuntimeConfig) (forwardConfig : ForwardConfig)
    (entryNow : Date) (ticks : list Tick) : M (option MonitorFrame) :=
  frame <- monitorEnter entryNow ;;
  monitorLoop config forwardConfig frame ticks.

End Methods.

Arguments Log {ForwardConfig}.
Arguments OverlayDismiss {ForwardConfig}.
Arguments OverlayDismissReason {ForwardConfig}.
Arguments OverlayShowPartial {ForwardConfig}.
Arguments OverlayPresentFinal {ForwardConfig}.
Arguments TriggerVoiceEars {ForwardConfig}.
Arguments StopVoiceEars {ForwardConfig}.
Arguments SpawnStart {ForwardConfig}.
Arguments SpawnMonitor {ForwardConfig}.
Arguments Sleep {ForwardConfig}.
Arguments stateOf {ForwardConfig A}.
Arguments effectsOf {ForwardConfig A}.
Arguments valueOf {ForwardConfig A}.

(** ** Notions used to state the properties *)

(** [t] occurs in [s]. *)
Definition isSubstring (t s : string) : Prop :=
  exists pre post, s = pre ++ t ++ post.

(** [t] occurs in [s] right after [pre], and nowhere earlier. *)
Definition firstOccurrence (t s pre : string) : Prop :=
  (exists post, s = pre ++ t ++ post) /\
  forall pre' post', s = pre' ++ t ++ post' ->
    (String.length pre <= String.length pre')%nat.

(** A trigger that the matcher finds in the normalized text. *)
Definition triggerFound (lower trigger : string) : Prop :=
  triggerToken trigger <> "" /\ isSubstring (triggerToken trigger) lower.

Fixpoint allWhitespace (s : string) : bool :=
  match s with
  | EmptyString => true
  | String c r => Str.isWhitespace c && allWhitespace r
  end.

(** The number of times a notification satisfying [p] was sent. *)
Definition countEffects {F : Type} (p : Effect F -> bool) (l : list (Effect F)) : nat :=
  List.length (List.filter p l).

Definition isDismissEmpty {F : Type} (e : Effect F) : bool :=
  match e with
  | OverlayDismissReason Empty => true
  | _ => false
  end.

Definition isPresentFinal {F : Type} (e : Effect F) : bool :=
  match e with
  | OverlayPresentFinal _ _ _ => true
  | _ => false
  end.

(** The log entry of a recognition callback. *)
Definition logOf {F : Type} (error : option string) : list (Effect F) :=
  match error with
  | Some description => [Log (RecognitionError description)]
  | None => []
  end.

(** A cooldown is set and [now] is before it. *)
Definition cooldownActive (s : Runtime) (now : Date) : bool :=
  match cooldownUntil s with
  | Some cooldown => now <? cooldown
  | None => false
  end.

(** The runtime after a transcript was taken note of as speech activity. *)
Definition heardAt (now : Date) (text : string) (s : Runtime) : Runtime :=
  if Str.isEmpty text then s else set_lastHeard (Some now) s.

(** The notification that a capture began. *)
Definition isCaptureBegan {F : Type} (e : Effect F) : bool :=
  match e with
  | TriggerVoiceEars => true
  | _ => false
  end.

(** The calls that reach the actor: a configuration push, a start handed to
    a task by [restartRecognizer], a recognition callback, a turn of the
    monitor loop. *)
Inductive Call (F : Type) : Type :=
  | CallRefresh (voiceWakeSupported : bool) (state : AppState)
      (permissionsGranted : bool) (now : Date) (env : StartEnv)
  | CallStart (config : RuntimeConfig) (now : Date) (env : StartEnv)
  | CallHandleRecognition (transcript error : option string)
      (config : RuntimeConfig) (now captureNow : Date)
  | CallMonitorPoll (config : RuntimeConfig) (forwardConfig : F)
      (frame : MonitorFrame) (now finalizeNow : Date).

Arguments CallRefresh {F}.
Arguments CallStart {F}.
Arguments CallHandleRecognition {F}.
Arguments CallMonitorPoll {F}.

Definition perform {F : Type} (c : Call F) (s : Runtime) : Runtime :=
  match c with
  | CallRefresh supported state granted now env =>
      stateOf (refresh F supported state granted now env s)
  | CallStart config now env => stateOf (start F config now env s)
  | CallHandleRecognition transcript error config now captureNow =>
      stateOf (handleRecognition F transcript error config now captureNow s)
  | CallMonitorPoll config fwd frame now finalizeNow =>
      stateOf (monitorPoll F config fwd frame now finalizeNow s)
  end.

(** The states of the runtime after any sequence of calls. *)
Inductive Reachable {F : Type} : Runtime -> Prop :=
  | ReachableInitial : Reachable initial
  | ReachableCall (s : Runtime) (c : Call F) :
      Reachable s -> Reachable (perform c s).


(** The number of words that [Str.splitFrom] yields, by whether a word is
    being read. *)
Fixpoint countWords (inWord : bool) (s : string) : nat :=
  match s with
  | EmptyString => if inWord then 1%nat else 0%nat
  | String c r =>
      if Str.isWhitespace c
      then (if inWord then S (countWords false r) else countWords false r)
      else countWords true r
  end.

(** Two or more words follow the trigger in [text]. *)
Definition wordsBeyondTrigger (config : RuntimeConfig) (text : string) : bool :=
  textHasBeyondTriggerContent (trimmedAfterTrigger text (triggers config)).

(** *** Scenarios *)

Definition heyClaw : RuntimeConfig :=
  {| triggers := ["hey claw"]; micID := None; localeID := None |}.

Definition claw : RuntimeConfig :=
  {| triggers := ["claw"]; micID := None; localeID := None |}.

(** The runtime listening with [config] since [now]. *)
Definition listening (config : RuntimeConfig) (now : Date) : Runtime :=
  stateOf (start unit config now startSucceeds initial).

(** The runtime capturing since the transcript [text] arrived at [now]. *)
Definition capturing (config : RuntimeConfig) (text : string) (now : Date) : Runtime :=
  stateOf (handleRecognition unit (Some text) None config now now
             (listening config 0)).

Definition update (text : string) (now : Date) : Update :=
  {| updTranscript := text; updError := None; updNow := now |}.

(** The settings under which [refresh] builds the configuration [heyClaw]. *)
Definition heyClawSettings : AppState :=
  {| swabbleEnabled := true; swabbleTriggerWords := ["hey claw"];
     voiceWakeMicID := ""; voiceWakeLocaleID := "" |}.

(** ** Texts beyond U+00FF: scalars, UTF-8 offsets and string indices

    A second, finer model of the Swift strings that [trimmedAfterTrigger]
    works on, for texts whose lowercase form has another length.  A text is
    the sequence of its Unicode scalars.  A [String.Index] is the offset of
    a scalar in the UTF-8 form of the string it was taken from; subscripting
    another string with it reads the offset in the UTF-8 form of that other
    string, rounds it down to the start of a scalar, and stops the program
    when the offset lies beyond the end. *)

Module Wide.

Definition Scalar : Type := N.
Definition Text : Type := list Scalar.

(** The number of bytes of a scalar in UTF-8. *)
Definition utf8Width (c : Scalar) : nat :=
  if (c <? 128)%N then 1%nat
  else if (c <? 2048)%N then 2%nat
  else if (c <? 65536)%N then 3%nat
  else 4%nat.

Fixpoint utf8Count (s : Text) : nat :=
  match s with
  | [] => 0%nat
  | c :: r => (utf8Width c + utf8Count r)%nat
  end.

(** The scalars with the property White_Space, which are also those of
    [CharacterSet.whitespacesAndNewlines]. *)
Definition isWhitespace (c : Scalar) : bool :=
  ((9 <=? c) && (c <=? 13) || (c =? 32) || (c =? 133) || (c =? 160)
   || (c =? 5760) || (8192 <=? c) && (c <=? 8202) || (c =? 8232)
   || (c =? 8233) || (c =? 8239) || (c =? 8287) || (c =? 12288))%N.

(** The lowercase form of a scalar, for the scalars up to U+00FF and for the
    capital I with dot above, U+0130, whose lowercase form is the two
    scalars U+0069 and U+0307.  The texts of this development hold no other
    cased scalar. *)
Definition lowerScalar (c : Scalar) : Text :=
  if ((65 <=? c) && (c <=? 90)
      || (192 <=? c) && (c <=? 222) && negb (c =? 215))%N
  then [(c + 32)%N]
  else if (c =? 304)%N then [105%N; 775%N]
  else [c].

Definition isEmpty (s : Text) : bool :=
  match s with
  | [] => true
  | _ :: _ => false
  end.

Fixpoint lowercased (s : Text) : Text :=
  match s with
  | [] => []
  | c :: r => (lowerScalar c ++ lowercased r)%list
  end.

Fixpoint dropLeadingWhitespace (s : Text) : Text :=
  match s with
  | [] => []
  | c :: r => if isWhitespace c then dropLeadingWhitespace r else s
  end.

Fixpoint dropTrailingWhitespace (s : Text) : Text :=
  match s with
  | [] => []
  | c :: r =>
      let r' := dropTrailingWhitespace r in
      if isWhitespace c && isEmpty r' then [] else c :: r'
  end.

Definition trimmingWhitespace (s : Text) : Text :=
  dropTrailingWhitespace (dropLeadingWhitespace s).

Fixpoint hasPrefix (p s : Text) : bool :=
  match p, s with
  | [], _ => true
  | a :: p', b :: s' => N.eqb a b && hasPrefix p' s'
  | _ :: _, [] => false
  end.

(** [s.range(of: t)]: the first occurrence of [t] in [s], as the offsets of
    its two bounds in the UTF-8 form of [s]. *)
Fixpoint rangeOf (s t : Text) : option (nat * nat) :=
  if hasPrefix t s then Some (0%nat, utf8Count t)
  else
    match s with
    | [] => None
    | c :: r =>
        match rangeOf r t with
        | Some (lo, hi) => Some ((utf8Width c + lo)%nat, (utf8Width c + hi)%nat)
        | None => None
        end
    end.

(** What a method comes to: a value, or the runtime error that stops the
    program on a string index out of bounds. *)
Inductive Outcome (A : Type) : Type :=
  | Returned (value : A)
  | IndexOutOfBounds.

Arguments Returned {A}.
Arguments IndexOutOfBounds {A}.

(** [s[offset...]] for the index with the given offset. *)
Fixpoint suffixFromOffset (offset : nat) (s : Text) : Outcome Text :=
  match s with
  | [] =>
      match offset with
      | O => Returned []
      | S _ => IndexOutOfBounds
      end
  | c :: r =>
      if (utf8Width c <=? offset)%nat
      then suffixFromOffset (offset - utf8Width c) r
      else Returned s
  end.

Definition triggerToken (trigger : Text) : Text :=
  trimmingWhitespace (lowercased trigger).

Fixpoint trimmedAfterFirst (text lower : Text) (triggers : list Text)
    : Outcome Text :=
  match triggers with
  | [] => Returned text
  | trigger :: rest =>
      let token := triggerToken trigger in
      if isEmpty token then trimmedAfterFirst text lower rest
      else
        match rangeOf lower token with
        | None => trimmedAfterFirst text lower rest
        | Some (_, after) =>
            match suffixFromOffset after text with
            | Returned tail => Returned (trimmingWhitespace tail)
            | IndexOutOfBounds => IndexOutOfBounds
            end
        end
  end.

(** [trimmedAfterTrigger] of the source, on texts of any scalars. *)
Definition trimmedAfterTrigger (text : Text) (triggers : list Text) : Outcome Text :=
  trimmedAfterFirst text (lowercased text) triggers.

(** A text of U+0000 to U+00FF as a text of scalars. *)
Fixpoint ofString (s : string) : Text :=
  match s with
  | EmptyString => []
  | String c r => N_of_ascii c :: ofString r
  end.

(** The capital I with dot above. *)
Definition capitalIWithDot : Scalar := 304%N.

End Wide.

(** *** Coherence of the runtime *)

(** The recognition task, the request, the tap and the audio engine are up
    together, and the task serves the active configuration. *)
Definition lifecycleCoherent (s : Runtime) : Prop :=
  recognitionTask s = currentConfig s /\
  recognitionRequest s = isSome (recognitionTask s) /\
  inputTapInstalled s = isSome (recognitionTask s) /\
  audioEngineRunning s = isSome (recognitionTask s).


(** No recognition source, no session. *)
Definition isStopped (s : Runtime) : Prop :=
  recognitionTask s = None /\ currentConfig s = None /\
  recognitionRequest s = false /\ inputTapInstalled s = false /\
  audioEngineRunning s = false /\
  isCapturing s = false /\ captureTask s = None /\
  capturedTranscript s = "" /\ captureStartedAt s = None.

Fixpoint noWhitespace (s : string) : bool :=
  match s with
  | EmptyString => true
  | String c r => negb (Str.isWhitespace c) && noWhitespace r
  end.


Definition isLog {F : Type} (e : Effect F) : bool :=
  match e with
  | Log _ => true
  | _ => false
  end.

(** *** More scenarios *)

(** An environment in which the audio engine fails to start. *)
Definition engineFails : StartEnv :=
  {| recognizerCreated := true; recognizerAvailable := true;
     engineStarts := false |}.

(** Settings with the feature switched off. *)
Definition disabledSettings : AppState :=
  {| swabbleEnabled := false; swabbleTriggerWords := ["hey claw"];
     voiceWakeMicID := ""; voiceWakeLocaleID := "" |}.

(** Settings with another trigger and a microphone chosen. *)
Definition clawSettings : AppState :=
  {| swabbleEnabled := true; swabbleTriggerWords := ["claw"];
     voiceWakeMicID := "usb-mic"; voiceWakeLocaleID := "" |}.

Definition quietTick (now : Date) : Tick :=
  {| arrivals := []; pollNow := now; pollFinalizeNow := now |}.

(** ** The control UI: themes and session names

    The TypeScript of the control UI.  A JavaScript string is a [string]
    whose characters are the code units 0 to 255.  Plain objects used as
    tables inherit the members of [Object.prototype]: reading a key that the
    table does not own yields that member when the key names one, and
    [undefined] otherwise. *)

Module Js.

(** White space and line terminators, which [String.prototype.trim] strips:
    tab, line feed, vertical tab, form feed, carriage return, space and
    no-break space. *)
Definition isWhiteSpace (c : ascii) : bool :=
  let n := nat_of_ascii c in
  ((9 <=? n) && (n <=? 13))%nat || (n =? 32)%nat || (n =? 160)%nat.

(** The characters that [.] of a regular expression does not match. *)
Definition isLineTerminator (c : ascii) : bool :=
  let n := nat_of_ascii c in
  (n =? 10)%nat || (n =? 13)%nat.

Fixpoint trimStart (s : string) : string :=
  match s with
  | EmptyString => EmptyString
  | String c r => if isWhiteSpace c then trimStart r else s
  end.

Fixpoint trimEnd (s : string) : string :=
  match s with
  | EmptyString => EmptyString
  | String c r =>
      let r' := trimEnd r in
      if isWhiteSpace c && Str.isEmpty r' then EmptyString else String c r'
  end.

Definition trim (s : string) : string := trimEnd (trimStart s).

(** A string in a condition: the empty string is falsy. *)
Definition truthy (s : string) : bool := negb (Str.isEmpty s).

Definition includes (s t : string) : bool := Str.contains s t.
Definition startsWith (s p : string) : bool := Str.hasPrefix p s.

(** [s.charAt(0)] and [s.slice(1)]. *)
Definition charAt0 (s : string) : string :=
  match s with
  | EmptyString => EmptyString
  | String c _ => String c EmptyString
  end.

Definition slice1 (s : string) : string :=
  match s with
  | EmptyString => EmptyString
  | String _ r => r
  end.

(** The members of [Object.prototype]. *)
Definition objectPrototypeKeys : list string :=
  ["constructor"; "__defineGetter__"; "__defineSetter__"; "hasOwnProperty";
   "__lookupGetter__"; "__lookupSetter__"; "isPrototypeOf";
   "propertyIsEnumerable"; "toString"; "valueOf"; "__proto__";
   "toLocaleString"].

Definition isPrototypeKey (k : string) : bool :=
  existsb (String.eqb k) objectPrototypeKeys.

(** What [table[k]] yields for a table written as an object literal. *)
Inductive Lookup (A : Type) : Type :=
  | Own (value : A)
  | Inherited (member : string)
  | Undefined.

Arguments Own {A}.
Arguments Inherited {A}.
Arguments Undefined {A}.

Fixpoint ownProperty {A : Type} (table : list (string * A)) (k : string) : option A :=
  match table with
  | [] => None
  | (k', v) :: rest => if String.eqb k k' then Some v else ownProperty rest k
  end.

Definition getProperty {A : Type} (table : list (string * A)) (k : string) : Lookup A :=
  match ownProperty table k with
  | Some v => Own v
  | None => if isPrototypeKey k then Inherited k else Undefined
  end.

(** The canonical form under which a regular expression with the flag [i]
    compares characters: the upper case of the letters a to z and of the
    small letters U+00E0 to U+00FE, the division sign U+00F7 apart.  The
    micro sign U+00B5 and U+00FF have their canonical forms beyond U+00FF,
    shared with no code unit up to U+00FF, and the sharp s has none: each
    of them compares equal to itself alone, as here. *)
Definition canonicalize (c : ascii) : ascii :=
  let n := nat_of_ascii c in
  if ((97 <=? n) && (n <=? 122))%nat
     || ((224 <=? n) && (n <=? 254) && negb (n =? 247))%nat
  then ascii_of_nat (n - 32) else c.

(** [s] begins with [p], compared in canonical form. *)
Fixpoint startsWithIgnoreCase (s p : string) : bool :=
  match p, s with
  | EmptyString, _ => true
  | String a p', String b s' =>
      Ascii.eqb (canonicalize a) (canonicalize b) && startsWithIgnoreCase s' p'
  | String _ _, EmptyString => false
  end.

End Js.

Module Theme.

Inductive ThemeMode : Type :=
  | dark | light | openknot | fieldmanual | clawdash.

(** The string that a theme mode is. *)
Definition name (t : ThemeMode) : string :=
  match t with
  | dark => "dark"
  | light => "light"
  | openknot => "openknot"
  | fieldmanual => "fieldmanual"
  | clawdash => "clawdash"
  end.

Definition VALID_THEMES : list ThemeMode :=
  [dark; light; openknot; fieldmanual; clawdash].

(** [VALID_THEMES.has(mode)], with the theme that [mode] then is. *)
Definition validTheme (mode : string) : option ThemeMode :=
  find (fun t => String.eqb (name t) mode) VALID_THEMES.

Definition LEGACY_MAP : list (string * ThemeMode) :=
  [("defaultTheme", dark); ("docsTheme", light); ("lightTheme", openknot);
   ("landingTheme", openknot); ("newTheme", openknot)].

(** What [resolveTheme] returns: a theme mode, or the member of
    [Object.prototype] that [LEGACY_MAP] inherits under the given name. *)
Inductive Resolved : Type :=
  | Mode (t : ThemeMode)
  | Member (member : string).

Definition resolveTheme (mode : string) : Resolved :=
  match validTheme mode with
  | Some t => Mode t
  | None =>
      match Js.getProperty LEGACY_MAP mode with
      | Js.Own t => Mode t
      | Js.Inherited member => Member member
      | Js.Undefined => Mode dark
      end
  end.

Record ThemeOption : Type := {
  id : ThemeMode;
  optionLabel : string;
  iconKey : string
}.

Definition THEME_OPTIONS : list ThemeOption :=
  [{| id := dark; optionLabel := "Dark"; iconKey := "monitor" |};
   {| id := light; optionLabel := "Light"; iconKey := "book" |};
   {| id := openknot; optionLabel := "Knot"; iconKey := "zap" |};
   {| id := fieldmanual; optionLabel := "Field"; iconKey := "terminal" |};
   {| id := clawdash; optionLabel := "Chrome"; iconKey := "settings" |}].

Definition ThemeMode_eqb (a b : ThemeMode) : bool :=
  String.eqb (name a) (name b).

(** [THEME_OPTIONS.find((o) => o.id === id)] of [renderThemeToggle]. *)
Definition themeOption (t : ThemeMode) : option ThemeOption :=
  find (fun o => ThemeMode_eqb (id o) t) THEME_OPTIONS.

End Theme.

Module Session.

Record SessionDefaultsSnapshot : Type := {
  mainSessionKey : option string;
  mainKey : option string
}.

Record Snapshot : Type := {
  sessionDefaults : option SessionDefaultsSnapshot
}.

Record Hello : Type := {
  snapshot : option Snapshot
}.

(** A row of [SessionsListResult["sessions"]], as far as the names read it. *)
Record SessionRow : Type := {
  rowKey : string;
  rowLabel : option string;
  rowDisplayName : option string
}.

Record SessionsListResult : Type := {
  sessions : option (list SessionRow)
}.

Definition andThen {A B : Type} (o : option A) (f : A -> option B) : option B :=
  match o with
  | Some a => f a
  | None => None
  end.

(** [hello?.snapshot?.sessionDefaults] *)
Definition defaultsOf (hello : option Hello) : option SessionDefaultsSnapshot :=
  andThen (andThen hello snapshot) sessionDefaults.

(** [sessions?.sessions] *)
Definition rowsOf (result : option SessionsListResult) : option (list SessionRow) :=
  andThen result sessions.

(** [defaults?.field?.trim()], when it is a string that is not empty. *)
Definition trimmedDefault (field : SessionDefaultsSnapshot -> option string)
    (hello : option Hello) : option string :=
  match option_map Js.trim (andThen (defaultsOf hello) field) with
  | Some k => if Js.truthy k then Some k else None
  | None => None
  end.

Definition resolveSidebarChatSessionKey (hello : option Hello) : string :=
  match trimmedDefault mainSessionKey hello with
  | Some k => k
  | None =>
      match trimmedDefault mainKey hello with
      | Some k => k
      | None => "main"
      end
  end.

Definition hasMainRow (result : option SessionsListResult) : bool :=
  match rowsOf result with
  | Some rows => existsb (fun row => String.eqb (rowKey row) "main") rows
  | None => false
  end.

Definition resolveMainSessionKey (hello : option Hello)
    (result : option SessionsListResult) : option string :=
  match trimmedDefault mainSessionKey hello with
  | Some k => Some k
  | None =>
      match trimmedDefault mainKey hello with
      | Some k => Some k
      | None => if hasMainRow result then Some "main" else None
      end
  end.

Definition CHANNEL_LABELS : list (string * string) :=
  [("bluebubbles", "iMessage"); ("telegram", "Telegram");
   ("discord", "Discord"); ("signal", "Signal"); ("slack", "Slack");
   ("whatsapp", "WhatsApp"); ("matrix", "Matrix"); ("email", "Email");
   ("sms", "SMS")].

Definition KNOWN_CHANNEL_KEYS : list string := map fst CHANNEL_LABELS.

Record SessionKeyInfo : Type := {
  prefix : string;
  fallbackName : string
}.

(** The text before the first colon of [s], and the text after that colon
    when there is one. *)
Fixpoint splitColon (s : string) : string * option string :=
  match s with
  | EmptyString => (EmptyString, None)
  | String c r =>
      if Ascii.eqb c ":" then (EmptyString, Some r)
      else let '(seg, rest) := splitColon r in (String c seg, rest)
  end.

Fixpoint hasLineTerminator (s : string) : bool :=
  match s with
  | EmptyString => false
  | String c r => Js.isLineTerminator c || hasLineTerminator r
  end.

Fixpoint hasColon (s : string) : bool :=
  match s with
  | EmptyString => false
  | String c r => Ascii.eqb c ":" || hasColon r
  end.

(** [key.match(/^agent:[^:]+:([^:]+):KIND:(.+)$/)] for [KIND] one of
    [direct] and [group]: the two groups of the match.  The segments
    [[^:]+] end at the first colon that follows, so the match is decided
    from left to right. *)
Definition matchAgentKey (kind key : string) : option (string * string) :=
  if Js.startsWith key "agent:" then
    match splitColon (Str.suffixFrom 6 key) with
    | (agent, Some afterAgent) =>
        if Str.isEmpty agent then None
        else
          match splitColon afterAgent with
          | (channel, Some afterChannel) =>
              if Str.isEmpty channel then None
              else if Js.startsWith afterChannel (kind ++ ":") then
                let identifier :=
                  Str.suffixFrom (String.length kind + 1) afterChannel in
                if Str.isEmpty identifier || hasLineTerminator identifier
                then None
                else Some (channel, identifier)
              else None
          | (_, None) => None
          end
    | (_, None) => None
    end
  else None.

(** The separator of the name of a direct chat: a space, a middle dot
    (U+00B7), a space. *)
Definition middleDot : string := String " " (String "183" (String " " EmptyString)).

Section Names.

(** [String.prototype.toUpperCase], and the text that a template literal
    makes of the member of [Object.prototype] with a given name. *)
Variable toUpperCase : string -> string.
Variable memberText : string -> string.

Definition capitalize (s : string) : string :=
  toUpperCase (Js.charAt0 s) ++ Js.slice1 s.

(** [CHANNEL_LABELS[channel] ?? capitalize(channel)], as a template literal
    prints it. *)
Definition channelLabel (channel : string) : string :=
  match Js.getProperty CHANNEL_LABELS channel with
  | Js.Own label => label
  | Js.Inherited member => memberText member
  | Js.Undefined => capitalize channel
  end.

(** The loop over [KNOWN_CHANNEL_KEYS]: the label of the first channel that
    the key is, or begins with followed by a colon. *)
Fixpoint legacyChannelLabel (table : list (string * string)) (key : string)
    : option string :=
  match table with
  | [] => None
  | (ch, label) :: rest =>
      if String.eqb key ch || Js.startsWith key (ch ++ ":") then Some label
      else legacyChannelLabel rest key
  end.

Definition parseSessionKey (key : string) : SessionKeyInfo :=
  if String.eqb key "main" || String.eqb key "agent:main:main" then
    {| prefix := ""; fallbackName := "Main Session" |}
  else if Js.includes key ":subagent:" then
    {| prefix := "Subagent:"; fallbackName := "Subagent:" |}
  else if Js.includes key ":cron:" then
    {| prefix := "Cron:"; fallbackName := "Cron Job:" |}
  else
    match matchAgentKey "direct" key with
    | Some (channel, identifier) =>
        {| prefix := "";
           fallbackName := channelLabel channel ++ middleDot ++ identifier |}
    | None =>
        match matchAgentKey "group" key with
        | Some (channel, _) =>
            {| prefix := ""; fallbackName := channelLabel channel ++ " Group" |}
        | None =>
            match legacyChannelLabel CHANNEL_LABELS key with
            | Some label =>
                {| prefix := ""; fallbackName := label ++ " Session" |}
            | None => {| prefix := ""; fallbackName := key |}
            end
        end
    end.

(** [applyTypedPrefix] of [resolveSessionDisplayName]: the pattern is the
    prefix, escaped, then any white space, without regard to case. *)
Definition applyTypedPrefix (prefix name : string) : string :=
  if negb (Js.truthy prefix) then name
  else if Js.startsWithIgnoreCase name prefix then name
  else prefix ++ " " ++ name.

(** [row?.field?.trim() || ""] *)
Definition trimmedField (field : SessionRow -> option string)
    (row : option SessionRow) : string :=
  match option_map Js.trim (andThen row field) with
  | Some s => if Js.truthy s then s else ""
  | None => ""
  end.

Definition resolveSessionDisplayName (key : string) (row : option SessionRow)
    : string :=
  let label := trimmedField rowLabel row in
  let displayName := trimmedField rowDisplayName row in
  let info := parseSessionKey key in
  if Js.truthy label && negb (String.eqb label key) then
    applyTypedPrefix (prefix info) label
  else if Js.truthy displayName && negb (String.eqb displayName key) then
    applyTypedPrefix (prefix info) displayName
  else fallbackName info.

Record SessionOption : Type := {
  optKey : string;
  optDisplayName : string
}.

(** [rows.find((s) => s.key === key)] *)
Definition findRow (rows : option (list SessionRow)) (key : string)
    : option SessionRow :=
  andThen rows (find (fun s => String.eqb (rowKey s) key)).

Definition seenHas (seen : list string) (key : string) : bool :=
  existsb (String.eqb key) seen.

(** The loop over the rows of the result. *)
Fixpoint addRows (seen : list string) (options : list SessionOption)
    (rows : list SessionRow) : list SessionOption :=
  match rows with
  | [] => options
  | s :: rest =>
      if negb (seenHas seen (rowKey s)) then
        addRows (rowKey s :: seen)
          (options ++ [{| optKey := rowKey s;
                          optDisplayName :=
                            resolveSessionDisplayName (rowKey s) (Some s) |}])%list
          rest
      else addRows seen options rest
  end.

Definition resolveSessionOptions (sessionKey : string)
    (result : option SessionsListResult) (mainSessionKey : option string)
    : list SessionOption :=
  let main :=
    match mainSessionKey with
    | Some k => if Js.truthy k then Some k else None
    | None => None
    end in
  let resolvedMain := andThen main (findRow (rowsOf result)) in
  let resolvedCurrent := findRow (rowsOf result) sessionKey in
  let '(seen1, options1) :=
    match main with
    | Some k =>
        ([k], [{| optKey := k;
                  optDisplayName := resolveSessionDisplayName k resolvedMain |}])
    | None => ([], [])
    end in
  let '(seen2, options2) :=
    if negb (seenHas seen1 sessionKey) then
      (sessionKey :: seen1,
       (options1 ++ [{| optKey := sessionKey;
                        optDisplayName :=
                          resolveSessionDisplayName sessionKey resolvedCurrent |}])%list)
    else (seen1, options1) in
  match rowsOf result with
  | Some rows => addRows seen2 options2 rows
  | None => options2
  end.

End Names.

End Session.

(** *** Scenarios of the control UI *)

(** [toUpperCase] on the letters a to z. *)
Fixpoint upperAscii (s : string) : string :=
  match s with
  | EmptyString => EmptyString
  | String c r =>
      let n := nat_of_ascii c in
      String (if ((97 <=? n) && (n <=? 122))%nat then ascii_of_nat (n - 32) else c)
        (upperAscii r)
  end.

(** The text of a function of [Object.prototype] in a template literal. *)
Definition nativeText (member : string) : string :=
  "function " ++ member ++ "() { [native code] }".

Definition sampleRows : list Session.SessionRow :=
  [{| Session.rowKey := "agent:main:telegram:direct:alice";
      Session.rowLabel := Some "  Alice  "; Session.rowDisplayName := None |};
   {| Session.rowKey := "agent:main:subagent:research";
      Session.rowLabel := Some "research"; Session.rowDisplayName := None |};
   {| Session.rowKey := "agent:main:telegram:direct:alice";
      Session.rowLabel := Some "Duplicate"; Session.rowDisplayName := None |};
   {| Session.rowKey := "main";
      Session.rowLabel := None; Session.rowDisplayName := Some "main" |}].

Definition sampleResult : option Session.SessionsListResult :=
  Some {| Session.sessions := Some sampleRows |}.

(** ** Facts about strings *)

Module StrFacts.
Import Str.

Lemma isEmpty_true (s : string) : isEmpty s = true <-> s = "".
Proof. destruct s; simpl; split; congruence. Qed.

Lemma isEmpty_false (s : string) : isEmpty s = false <-> s <> "".
Proof. destruct s; simpl; split; congruence. Qed.

Lemma append_assoc (a b c : string) : (a ++ b) ++ c = a ++ (b ++ c).
Proof. induction a as [|x a IH]; simpl; [reflexivity | now rewrite IH]. Qed.

Lemma append_empty_r (a : string) : a ++ "" = a.
Proof. induction a as [|x a IH]; simpl; [reflexivity | now rewrite IH]. Qed.

Lemma length_append (a b : string) :
  String.length (a ++ b) = (String.length a + String.length b)%nat.
Proof. induction a as [|x a IH]; simpl; [reflexivity | now rewrite IH]. Qed.

Lemma lowercased_append (a b : string) :
  lowercased (a ++ b) = lowercased a ++ lowercased b.
Proof. induction a as [|x a IH]; simpl; [reflexivity | now rewrite IH]. Qed.

Lemma lowercased_length (a : string) :
  String.length (lowercased a) = String.length a.
Proof. induction a as [|x a IH]; simpl; [reflexivity | now rewrite IH]. Qed.

Lemma lowercased_isEmpty (a : string) : isEmpty (lowercased a) = isEmpty a.
Proof. now destruct a. Qed.

Lemma lowerChar_idempotent (c : ascii) : lowerChar (lowerChar c) = lowerChar c.
Proof. destruct c as [[] [] [] [] [] [] [] []]; reflexivity. Qed.

Lemma lowercased_idempotent (a : string) : lowercased (lowercased a) = lowercased a.
Proof.
  induction a as [|x a IH]; simpl; [reflexivity|].
  now rewrite lowerChar_idempotent, IH.
Qed.

Lemma isWhitespace_lowerChar (c : ascii) :
  isWhitespace (lowerChar c) = isWhitespace c.
Proof. destruct c as [[] [] [] [] [] [] [] []]; reflexivity. Qed.

(** Splitting a text whose lowercase form is a concatenation. *)
Lemma lowercased_split (s a b : string) :
  lowercased s = a ++ b ->
  exists a' b', s = a' ++ b' /\ lowercased a' = a /\ lowercased b' = b.
Proof.
  revert s; induction a as [|x a IH]; intros s H.
  - exists "", s. simpl in *. auto.
  - destruct s as [|y s]; simpl in H; [discriminate|].
    injection H as Hx Hs.
    destruct (IH _ Hs) as (a' & b' & -> & Ha & Hb).
    exists (String y a'), b'. simpl. now rewrite Hx, Ha, Hb.
Qed.

Lemma hasPrefix_spec (p s : string) :
  hasPrefix p s = true <-> exists post, s = p ++ post.
Proof.
  revert s; induction p as [|a p IH]; intros s; simpl.
  - split; [intros _; now exists s | reflexivity].
  - destruct s as [|b s].
    + split; [discriminate | intros [post H]; discriminate].
    + rewrite andb_true_iff, Ascii.eqb_eq, IH. split.
      * intros [-> [post ->]]. now exists post.
      * intros [post H]. injection H as -> ->. split; [reflexivity | now exists post].
Qed.

Lemma contains_spec (s t : string) :
  contains s t = true <-> isSubstring t s.
Proof.
  unfold isSubstring. induction s as [|c s IH].
  - simpl. rewrite orb_false_r, hasPrefix_spec. split.
    + intros [post H]. now exists "", post.
    + intros (pre & post & H).
      destruct pre; simpl in H; [now exists post | discriminate].
  - simpl. rewrite orb_true_iff, hasPrefix_spec, IH. split.
    + intros [[post H] | (pre & post & H)].
      * now exists "", post.
      * exists (String c pre), post. simpl. now rewrite H.
    + intros (pre & post & H). destruct pre as [|x pre]; simpl in H.
      * left. now exists post.
      * right. injection H as _ H. now exists pre, post.
Qed.

Lemma rangeOf_none (s t : string) :
  rangeOf s t = None <-> contains s t = false.
Proof.
  induction s as [|c s IH]; simpl.
  - destruct (hasPrefix t ""); simpl; split; congruence.
  - destruct (hasPrefix t (String c s)); simpl; [split; congruence|].
    rewrite <- IH. destruct (rangeOf s t) as [[lo hi]|]; split; congruence.
Qed.

Lemma rangeOf_some (s t : string) (lo hi : nat) :
  rangeOf s t = Some (lo, hi) ->
  exists pre, firstOccurrence t s pre /\
    String.length pre = lo /\ hi = (lo + String.length t)%nat.
Proof.
  revert lo hi; induction s as [|c s IH]; intros lo hi; simpl.
  - destruct (hasPrefix t "") eqn:Hp; [|discriminate].
    intros H; injection H as <- <-. exists "". split; [split|auto].
    + apply hasPrefix_spec in Hp. exact Hp.
    + intros; simpl; lia.
  - destruct (hasPrefix t (String c s)) eqn:Hp.
    + intros H; injection H as <- <-. exists "". split; [split|auto].
      * apply hasPrefix_spec in Hp. exact Hp.
      * intros; simpl; lia.
    + destruct (rangeOf s t) as [[lo' hi']|] eqn:Hr; [|discriminate].
      intros H; injection H as <- <-.
      destruct (IH _ _ eq_refl) as (pre & [[post Hs] Hmin] & Hlen & Hhi).
      exists (String c pre). split; [split|].
      * exists post. simpl. now rewrite Hs.
      * intros pre' post' H'. destruct pre' as [|x pre']; simpl in H'.
        -- assert (hasPrefix t (String c s) = true) as E
             by (apply hasPrefix_spec; now exists post').
           congruence.
        -- injection H' as _ H'. simpl. specialize (Hmin _ _ H'). lia.
      * simpl. split; [now rewrite Hlen | now rewrite Hhi].
Qed.

Lemma suffixFrom_append (a b : string) :
  suffixFrom (String.length a) (a ++ b) = b.
Proof. induction a as [|x a IH]; simpl; [now destruct b | exact IH]. Qed.

Lemma dropLeading_allWhitespace (s : string) :
  allWhitespace s = true -> dropLeadingWhitespace s = "".
Proof.
  induction s as [|c s IH]; simpl; [reflexivity|].
  destruct (isWhitespace c); simpl; [exact IH | discriminate].
Qed.

Lemma allWhitespace_lowercased (s : string) :
  allWhitespace (lowercased s) = allWhitespace s.
Proof.
  induction s as [|c s IH]; simpl; [reflexivity|].
  now rewrite isWhitespace_lowerChar, IH.
Qed.

End StrFacts.

(** ** The trigger matcher: properties *)

Module Matcher.
Import Str StrFacts.

Lemma triggerFound_dec_contains (lower trigger : string) :
  triggerFound lower trigger <->
  isEmpty (triggerToken trigger) = false /\
  contains lower (triggerToken trigger) = true.
Proof.
  unfold triggerFound. now rewrite isEmpty_false, contains_spec.
Qed.

Lemma matchesAny_spec (lower : string) (triggers : list string) :
  matchesAny lower triggers = true <->
  exists trigger, In trigger triggers /\ triggerFound lower trigger.
Proof.
  induction triggers as [|tr rest IH]; simpl.
  - split; [discriminate | intros (? & [] & _)].
  - destruct (isEmpty (triggerToken tr)) eqn:He.
    + rewrite IH. split.
      * intros (t & Hin & Hf). exists t. auto.
      * intros (t & [<- | Hin] & Hf).
        -- apply triggerFound_dec_contains in Hf. destruct Hf; congruence.
        -- exists t. auto.
    + destruct (contains lower (triggerToken tr)) eqn:Hc.
      * split; [intros _ | reflexivity].
        exists tr. split; [now left|]. now apply triggerFound_dec_contains.
      * rewrite IH. split.
        -- intros (t & Hin & Hf). exists t. auto.
        -- intros (t & [<- | Hin] & Hf).
           ++ apply triggerFound_dec_contains in Hf. destruct Hf; congruence.
           ++ exists t. auto.
Qed.

Lemma matchesAny_false (lower : string) (triggers : list string) :
  matchesAny lower triggers = false <->
  forall trigger, In trigger triggers -> ~ triggerFound lower trigger.
Proof.
  rewrite <- not_true_iff_false, matchesAny_spec. split.
  - intros H t Hin Hf. apply H. now exists t.
  - intros H (t & Hin & Hf). exact (H t Hin Hf).
Qed.

Lemma triggerToken_allWhitespace (trigger : string) :
  allWhitespace trigger = true -> triggerToken trigger = "".
Proof.
  intros H. unfold triggerToken, trimmingWhitespace.
  rewrite dropLeading_allWhitespace; [reflexivity|].
  now rewrite allWhitespace_lowercased.
Qed.

Lemma matchesAny_lowercased_triggers (lower : string) (triggers triggers' : list string) :
  map lowercased triggers' = map lowercased triggers ->
  matchesAny lower triggers' = matchesAny lower triggers.
Proof.
  revert triggers'; induction triggers as [|tr rest IH]; intros [|tr' rest'] H;
    simpl in H; try discriminate; [reflexivity|].
  injection H as Ht Hr. simpl. unfold triggerToken. rewrite Ht.
  now rewrite (IH _ Hr).
Qed.

(** Nothing is found in the empty text. *)
Lemma triggerFound_empty (trigger : string) : ~ triggerFound "" trigger.
Proof.
  intros [Hne (pre & post & H)].
  destruct pre; simpl in H; [|discriminate].
  destruct (triggerToken trigger); [congruence | discriminate].
Qed.

Lemma trimmedAfterFirst_not_found (text lower : string) (triggers : list string) :
  (forall trigger, In trigger triggers -> ~ triggerFound lower trigger) ->
  trimmedAfterFirst text lower triggers = text.
Proof.
  induction triggers as [|tr rest IH]; intros H; simpl; [reflexivity|].
  destruct (isEmpty (triggerToken tr)) eqn:He.
  - apply IH. intros t Hin. apply H. now right.
  - destruct (rangeOf lower (triggerToken tr)) as [[lo hi]|] eqn:Hr.
    + exfalso. apply (H tr); [now left|].
      apply triggerFound_dec_contains. split; [exact He|].
      apply not_false_iff_true. intros Hc.
      apply rangeOf_none in Hc. congruence.
    + apply IH. intros t Hin. apply H. now right.
Qed.

Lemma trimmedAfterFirst_skip (text lower : string) (skipped rest : list string) :
  (forall trigger, In trigger skipped -> ~ triggerFound lower trigger) ->
  trimmedAfterFirst text lower (skipped ++ rest) =
  trimmedAfterFirst text lower rest.
Proof.
  induction skipped as [|tr sk IH]; intros H; simpl; [reflexivity|].
  assert (forall t, In t sk -> ~ triggerFound lower t) as H'
    by (intros t Hin; apply H; now right).
  destruct (isEmpty (triggerToken tr)) eqn:He; [now apply IH|].
  destruct (rangeOf lower (triggerToken tr)) as [[lo hi]|] eqn:Hr;
    [|now apply IH].
  exfalso. apply (H tr); [now left|].
  apply triggerFound_dec_contains. split; [exact He|].
  apply not_false_iff_true. intros Hc. apply rangeOf_none in Hc. congruence.
Qed.

(** The text after the first occurrence of a token that is found. *)
Lemma trimmedAfterFirst_here (text trigger : string) (rest : list string)
    (before matched after : string) :
  triggerToken trigger <> "" ->
  text = before ++ matched ++ after ->
  lowercased matched = triggerToken trigger ->
  firstOccurrence (triggerToken trigger) (lowercased text) (lowercased before) ->
  trimmedAfterFirst text (lowercased text) (trigger :: rest) =
  trimmingWhitespace after.
Proof.
  intros Hne Htext Hm [[post Hocc] Hmin]. simpl.
  apply isEmpty_false in Hne. rewrite Hne.
  destruct (rangeOf (lowercased text) (triggerToken trigger)) as [[lo hi]|] eqn:Hr.
  - destruct (rangeOf_some _ _ _ _ Hr) as (pre & [[post' Hocc'] Hmin'] & Hlo & Hhi).
    assert (String.length pre = String.length (lowercased before)) as Hlen.
    { apply Nat.le_antisymm; [exact (Hmin' _ _ Hocc) | exact (Hmin _ _ Hocc')]. }
    assert (hi = String.length (before ++ matched)) as ->.
    { rewrite Hhi, <- Hlo, Hlen, length_append, <- Hm.
      now rewrite !lowercased_length. }
    rewrite Htext, <- append_assoc, suffixFrom_append. reflexivity.
  - exfalso. apply rangeOf_none in Hr.
    assert (contains (lowercased text) (triggerToken trigger) = true) as Hc
      by (apply contains_spec; now exists (lowercased before), post).
    congruence.
Qed.

(** When some trigger is found, the text splits around the first occurrence
    of the first trigger found. *)
Lemma trimmedAfterFirst_found (text : string) (triggers : list string) :
  matchesAny (lowercased text) triggers = true ->
  exists skipped trigger rest before matched after,
    triggers = (skipped ++ trigger :: rest)%list /\
    (forall t, In t skipped -> ~ triggerFound (lowercased text) t) /\
    triggerFound (lowercased text) trigger /\
    text = before ++ matched ++ after /\
    lowercased matched = triggerToken trigger /\
    firstOccurrence (triggerToken trigger) (lowercased text) (lowercased before).
Proof.
  induction triggers as [|tr rest IH]; simpl; [discriminate|].
  assert (triggerFound (lowercased text) tr ->
          exists before matched after,
            text = before ++ matched ++ after /\
            lowercased matched = triggerToken tr /\
            firstOccurrence (triggerToken tr) (lowercased text) (lowercased before))
    as Hsplit.
  { intros Hf. apply triggerFound_dec_contains in Hf. destruct Hf as [_ Hc].
    destruct (rangeOf (lowercased text) (triggerToken tr)) as [[lo hi]|] eqn:Hr.
    - destruct (rangeOf_some _ _ _ _ Hr) as (pre & Hfirst & _).
      destruct Hfirst as [[post Hocc] Hmin].
      destruct (lowercased_split _ _ _ Hocc) as (before & tail & Ht & Hb & Htail).
      destruct (lowercased_split _ _ _ Htail) as (matched & after & Ht' & Hm & _).
      exists before, matched, after. subst tail. rewrite Hb.
      repeat split; auto. now exists post.
    - apply rangeOf_none in Hr. congruence. }
  assert (~ triggerFound (lowercased text) tr ->
          matchesAny (lowercased text) rest = true ->
          exists skipped trigger rest0 before matched after,
            tr :: rest = (skipped ++ trigger :: rest0)%list /\
            (forall t, In t skipped -> ~ triggerFound (lowercased text) t) /\
            triggerFound (lowercased text) trigger /\
            text = before ++ matched ++ after /\
            lowercased matched = triggerToken trigger /\
            firstOccurrence (triggerToken trigger) (lowercased text)
              (lowercased before)) as Hlater.
  { intros Hnf Hrest.
    destruct (IH Hrest) as (sk & t & r & b & m & a & -> & Hsk & Hf & Hrest').
    exists (tr :: sk), t, r, b, m, a. split; [reflexivity|]. split; [|auto].
    intros t0 [<- | Hin]; auto. }
  destruct (isEmpty (triggerToken tr)) eqn:He.
  - apply Hlater. intros Hf. apply triggerFound_dec_contains in Hf.
    destruct Hf; congruence.
  - destruct (contains (lowercased text) (triggerToken tr)) eqn:Hc.
    + intros _.
      assert (triggerFound (lowercased text) tr) as Hf
        by now apply triggerFound_dec_contains.
      destruct (Hsplit Hf) as (b & m & a & H1 & H2 & H3).
      exists [], tr, rest, b, m, a. simpl.
      split; [reflexivity|]. split; [intros t []|]. auto.
    + apply Hlater. intros Hf. apply triggerFound_dec_contains in Hf.
      destruct Hf; congruence.
Qed.

(** C7.  [matches text triggers] holds exactly when [text] is not empty and
    some trigger, lowercased and trimmed to a non-empty token, occurs in the
    lowercased text.  So it is false for the empty text, false when every
    trigger is empty or made of whitespace only, and it does not depend on
    the case of the text or of the triggers. *)
Theorem matches_spec (text : string) (triggers : list string) :
  (matches text triggers = true <->
     text <> "" /\
     exists trigger, In trigger triggers /\
       triggerToken trigger <> "" /\
       isSubstring (triggerToken trigger) (lowercased text))
  /\ matches "" triggers = false
  /\ ((forall trigger, In trigger triggers -> allWhitespace trigger = true) ->
      matches text triggers = false)
  /\ (forall text' triggers',
        lowercased text' = lowercased text ->
        map lowercased triggers' = map lowercased triggers ->
        matches text' triggers' = matches text triggers).
Proof.
  repeat split.
  - unfold matches in H. destruct text; [discriminate | discriminate].
  - unfold matches in H. destruct (isEmpty text); [discriminate|].
    now apply matchesAny_spec.
  - intros [Hne Hex]. unfold matches.
    apply isEmpty_false in Hne. rewrite Hne. now apply matchesAny_spec.
  - intros Hws. unfold matches. destruct (isEmpty text); [reflexivity|].
    apply matchesAny_false. intros t Hin [Hne _].
    apply Hne, triggerToken_allWhitespace, Hws, Hin.
  - intros text' triggers' Ht Htr. unfold matches.
    rewrite <- (lowercased_isEmpty text'), Ht, lowercased_isEmpty.
    destruct (isEmpty text); [reflexivity|].
    now apply matchesAny_lowercased_triggers.
Qed.

(** On texts of U+0000 to U+00FF, [trimmedAfterTrigger] scans the triggers
    in order with the normalization of [matches].  For the first trigger
    found it returns the original text after the end of the first
    occurrence, trimmed; it returns the text as it is when no trigger is
    found, which is the case exactly when [matches] is false. *)
Theorem trimmedAfterTrigger_spec (text : string) (triggers : list string) :
  (forall skipped trigger rest before matched after,
     triggers = (skipped ++ trigger :: rest)%list ->
     (forall t, In t skipped -> ~ triggerFound (lowercased text) t) ->
     triggerToken trigger <> "" ->
     text = before ++ matched ++ after ->
     lowercased matched = triggerToken trigger ->
     firstOccurrence (triggerToken trigger) (lowercased text) (lowercased before) ->
     trimmedAfterTrigger text triggers = trimmingWhitespace after)
  /\ (matches text triggers = true ->
      exists skipped trigger rest before matched after,
        triggers = (skipped ++ trigger :: rest)%list /\
        (forall t, In t skipped -> ~ triggerFound (lowercased text) t) /\
        triggerFound (lowercased text) trigger /\
        text = before ++ matched ++ after /\
        lowercased matched = triggerToken trigger /\
        firstOccurrence (triggerToken trigger) (lowercased text) (lowercased before))
  /\ ((forall t, In t triggers -> ~ triggerFound (lowercased text) t) ->
      trimmedAfterTrigger text triggers = text)
  /\ (matches text triggers = false -> trimmedAfterTrigger text triggers = text).
Proof.
  repeat split.
  - intros skipped trigger rest before matched after -> Hsk Hne Ht Hm Hfirst.
    unfold trimmedAfterTrigger. rewrite trimmedAfterFirst_skip by exact Hsk.
    now apply trimmedAfterFirst_here with (before := before) (matched := matched).
  - unfold matches. destruct (isEmpty text); [discriminate|].
    apply trimmedAfterFirst_found.
  - intros H. now apply trimmedAfterFirst_not_found.
  - unfold matches, trimmedAfterTrigger. destruct text as [|c text].
    + intros _. apply trimmedAfterFirst_not_found.
      intros t _. apply triggerFound_empty.
    + simpl isEmpty. cbv iota. intros H.
      apply trimmedAfterFirst_not_found. now apply matchesAny_false.
Qed.

(** *** Words of a transcript and of what follows the trigger *)

Lemma splitFrom_length (word s : string) :
  List.length (splitFrom word s) = countWords (negb (isEmpty word)) s.
Proof.
  revert word; induction s as [|c r IH]; intros word; simpl.
  - now destruct (isEmpty word).
  - destruct (isWhitespace c).
    + destruct (isEmpty word); simpl; now rewrite IH.
    + rewrite IH. now destruct word.
Qed.

Lemma textHasBeyondTriggerContent_words (text : string) :
  textHasBeyondTriggerContent text = (1 <? countWords false text)%nat.
Proof.
  unfold textHasBeyondTriggerContent, splitWhitespace.
  now rewrite splitFrom_length.
Qed.

Lemma countWords_inWord (s : string) :
  (countWords false s <= countWords true s)%nat.
Proof.
  destruct s as [|c r]; simpl; [lia|]. destruct (isWhitespace c); lia.
Qed.

Lemma countWords_suffixFrom (i : nat) (s : string) :
  (countWords false (suffixFrom i s) <= countWords false s)%nat.
Proof.
  revert s; induction i as [|i IH]; intros s; [simpl; lia|].
  destruct s as [|c r]; simpl; [lia|].
  specialize (IH r). pose proof (countWords_inWord r).
  destruct (isWhitespace c); lia.
Qed.

Lemma countWords_dropLeading (s : string) :
  countWords false (dropLeadingWhitespace s) = countWords false s.
Proof.
  induction s as [|c r IH]; simpl; [reflexivity|].
  destruct (isWhitespace c) eqn:Hc; [exact IH|].
  simpl. now rewrite Hc.
Qed.

Lemma countWords_dropTrailing (inWord : bool) (s : string) :
  (countWords inWord (dropTrailingWhitespace s) <= countWords inWord s)%nat.
Proof.
  revert inWord; induction s as [|c r IH]; intros inWord; simpl; [lia|].
  destruct (isWhitespace c) eqn:Hc; simpl.
  - destruct (isEmpty (dropTrailingWhitespace r)) eqn:He; simpl.
    + destruct inWord; lia.
    + rewrite Hc. specialize (IH false). destruct inWord; lia.
  - rewrite Hc. apply IH.
Qed.

Lemma countWords_trimming (s : string) :
  (countWords false (trimmingWhitespace s) <= countWords false s)%nat.
Proof.
  unfold trimmingWhitespace.
  rewrite <- (countWords_dropLeading s). apply countWords_dropTrailing.
Qed.

Lemma countWords_trimmedAfterFirst (text lower : string) (triggers : list string) :
  (countWords false (trimmedAfterFirst text lower triggers)
   <= countWords false text)%nat.
Proof.
  induction triggers as [|tr rest IH]; simpl; [lia|].
  destruct (isEmpty (triggerToken tr)); [exact IH|].
  destruct (rangeOf lower (triggerToken tr)) as [[lo hi]|]; [|exact IH].
  pose proof (countWords_trimming (suffixFrom hi text)).
  pose proof (countWords_suffixFrom hi text). lia.
Qed.

(** What follows the trigger holds no more words than the transcript: two
    words after the trigger are two words of the transcript. *)
Lemma trimmed_beyond_trigger (text : string) (triggers : list string) :
  textHasBeyondTriggerContent (trimmedAfterTrigger text triggers) = true ->
  textHasBeyondTriggerContent text = true.
Proof.
  rewrite !textHasBeyondTriggerContent_words, !Nat.ltb_lt.
  pose proof (countWords_trimmedAfterFirst text (lowercased text) triggers).
  unfold trimmedAfterTrigger. lia.
Qed.

End Matcher.

(** ** Configuration equality *)

Lemma list_eqb_string_eq (l1 l2 : list string) :
  list_eqb String.eqb l1 l2 = true <-> l1 = l2.
Proof.
  revert l2; induction l1 as [|a l1 IH]; intros [|b l2]; simpl;
    try (split; congruence).
  rewrite andb_true_iff, String.eqb_eq, IH. split.
  - intros [-> ->]. reflexivity.
  - intros H. injection H as -> ->. auto.
Qed.

Lemma option_eqb_string_eq (o1 o2 : option string) :
  option_eqb String.eqb o1 o2 = true <-> o1 = o2.
Proof.
  destruct o1 as [a|], o2 as [b|]; simpl; try (split; congruence).
  rewrite String.eqb_eq. split; congruence.
Qed.

Lemma RuntimeConfig_eqb_eq (c1 c2 : RuntimeConfig) :
  RuntimeConfig_eqb c1 c2 = true <-> c1 = c2.
Proof.
  unfold RuntimeConfig_eqb.
  rewrite !andb_true_iff, list_eqb_string_eq, !option_eqb_string_eq.
  destruct c1, c2; simpl. split.
  - intros [[-> ->] ->]. reflexivity.
  - intros H. injection H as -> -> ->. auto.
Qed.

(** ** The runtime: properties *)

Section RuntimeFacts.

Context {F : Type}.

Ltac simp :=
  cbn -[textHasBeyondTriggerContent matches trimmedAfterTrigger
        Str.trimmingWhitespace Z.add Z.sub Z.ltb Z.leb].

(** Unfolds the methods and the monad down to states and effect lists. *)
Ltac run :=
  cbv [handleRecognition beginCapture finalizeCapture restartRecognizer
       updateHeardBeyondTrigger monitorPoll monitorEnter refresh start stop
       configureSession bind ret gets modify emit stateOf effectsOf valueOf];
  simp.

Lemma stop_not_capturing (s : Runtime) :
  isCapturing (stateOf (stop F s)) = false.
Proof. reflexivity. Qed.


Lemma finalizeCapture_not_capturing (s : Runtime) config fwd now :
  isCapturing (stateOf (finalizeCapture F config fwd now s)) = false.
Proof.
  run. destruct (isCapturing s) eqn:H; cbn; [|exact H].
  destruct (Str.isEmpty _); cbn; destruct (currentConfig s); reflexivity.
Qed.

(** Both branches of finalization set the cooldown to the finalization time
    plus the debounce. *)
Lemma finalizeCapture_cooldown (s : Runtime) config fwd now :
  isCapturing s = true ->
  cooldownUntil (stateOf (finalizeCapture F config fwd now s)) =
  Some (now + debounceAfterSend).
Proof.
  intros H. run. rewrite H. cbn.
  destruct (Str.isEmpty _); cbn; destruct (currentConfig s); reflexivity.
Qed.

(** Finalization hands the restart to a new task when a configuration is
    active. *)
Lemma finalizeCapture_spawns_start (s : Runtime) config fwd now current :
  isCapturing s = true ->
  currentConfig s = Some current ->
  In (SpawnStart current) (effectsOf (finalizeCapture F config fwd now s)).
Proof.
  intros H Hc. run. rewrite H. cbn.
  destruct (Str.isEmpty _); cbn; rewrite Hc; cbn; intuition.
Qed.

(** C9.  A recognition callback with an error and no transcript leaves the
    runtime as it is and sends nothing but the log entry of the error. *)
Theorem handleRecognition_error_without_transcript
    (s : Runtime) (description : string) (config : RuntimeConfig)
    (now captureNow : Date) :
  handleRecognition F None (Some description) config now captureNow s =
  (tt, s, [Log (RecognitionError description)]).
Proof. reflexivity. Qed.

(** C6.  [refresh] with the feature supported and enabled, permissions
    granted, a configuration equal to the active one and a recognition task
    running returns at once: the runtime is unchanged and nothing is sent,
    so the recognition source is neither stopped nor started. *)
Theorem refresh_same_config_is_noop
    (s : Runtime) (state : AppState) (now : Date) (env : StartEnv)
    (task : RuntimeConfig) :
  swabbleEnabled state = true ->
  currentConfig s = Some (snapshotConfig state) ->
  recognitionTask s = Some task ->
  refresh F true state true now env s = (tt, s, []).
Proof.
  intros He Hc Ht. unfold refresh. rewrite He. cbn.
  cbv [bind gets ret]. rewrite Hc, Ht. cbn.
  assert (RuntimeConfig_eqb (snapshotConfig state) (snapshotConfig state) = true)
    as -> by now apply RuntimeConfig_eqb_eq.
  reflexivity.
Qed.

(** C3.  Finalizing an active capture sends exactly one dismissal with
    reason [Empty] and no final presentation when the trimmed transcript is
    empty; otherwise it sends exactly one final presentation, with the
    trimmed transcript, the forward configuration and a delay of 1000 ms
    when content beyond the trigger was heard and 3000 ms when not, and no
    dismissal with reason [Empty]. *)
Theorem finalizeCapture_notifications
    (s : Runtime) (config : RuntimeConfig) (fwd : F) (now : Date) :
  isCapturing s = true ->
  let finalTranscript := Str.trimmingWhitespace (capturedTranscript s) in
  let sent := effectsOf (finalizeCapture F config fwd now s) in
  if Str.isEmpty finalTranscript then
    countEffects isDismissEmpty sent = 1%nat /\
    countEffects isPresentFinal sent = 0%nat
  else
    countEffects isPresentFinal sent = 1%nat /\
    filter isPresentFinal sent =
      [OverlayPresentFinal finalTranscript fwd
         (if heardBeyondTrigger s then 1000 else 3000)] /\
    countEffects isDismissEmpty sent = 0%nat.
Proof.
  intros H. run. rewrite H. cbn.
  destruct (Str.isEmpty _); cbn; destruct (currentConfig s); cbn; auto.
Qed.

Lemma beginCapture_eq (s : Runtime) text config now :
  beginCapture F text config now s =
  (tt,
   set_captureTask (Some config)
     (set_heardBeyondTrigger (textHasBeyondTriggerContent text)
        (set_cooldownUntil None
           (set_captureStartedAt (Some now)
              (set_capturedTranscript (trimmedAfterTrigger text (triggers config))
                 (set_isCapturing true s))))),
   [OverlayShowPartial (trimmedAfterTrigger text (triggers config));
    TriggerVoiceEars; SpawnMonitor config]).
Proof. reflexivity. Qed.

Lemma handleRecognition_no_transcript (s : Runtime) error config now captureNow :
  handleRecognition F None error config now captureNow s = (tt, s, logOf error).
Proof. destruct error; reflexivity. Qed.

Lemma handleRecognition_listening (s : Runtime) text error config now captureNow :
  isCapturing s = false ->
  handleRecognition F (Some text) error config now captureNow s =
  if matches text (triggers config) && negb (cooldownActive s now) then
    (tt, stateOf (beginCapture F text config captureNow (heardAt now text s)),
     (logOf error ++ effectsOf (beginCapture F text config captureNow (heardAt now text s)))%list)
  else (tt, heardAt now text s, logOf error).
Proof.
  intros Hcap. destruct s; cbn in Hcap; subst.
  unfold cooldownActive, heardAt. run.
  destruct error as [d|]; simp;
    destruct (Str.isEmpty text); simp;
    destruct (matches text (triggers config)); simp; try reflexivity;
    match goal with
    | |- context [match ?c with Some _ => _ | None => _ end] => destruct c as [c'|]
    end; simp; try reflexivity;
    match goal with |- context [now <? ?c] => destruct (now <? c) end;
    reflexivity.
Qed.

Lemma handleRecognition_capturing (s : Runtime) text error config now captureNow :
  isCapturing s = true ->
  Str.isEmpty text = false ->
  handleRecognition F (Some text) error config now captureNow s =
  (tt,
   set_heardBeyondTrigger (heardBeyondTrigger s || textHasBeyondTriggerContent text)
     (set_capturedTranscript (trimmedAfterTrigger text (triggers config))
        (set_lastHeard (Some now) s)),
   (logOf error ++ [OverlayShowPartial (trimmedAfterTrigger text (triggers config))])%list).
Proof.
  intros Hcap He. destruct s; cbn in Hcap; subst. run.
  destruct error as [d|]; simp; rewrite He; simp;
    match goal with
    | |- context [negb ?h && _] => destruct h
    end; simp; try reflexivity;
    destruct (textHasBeyondTriggerContent text); reflexivity.
Qed.

Lemma handleRecognition_capturing_empty (s : Runtime) error config now captureNow :
  isCapturing s = true ->
  handleRecognition F (Some "") error config now captureNow s = (tt, s, logOf error).
Proof.
  intros Hcap. destruct s; cbn in Hcap; subst. run.
  destruct error; reflexivity.
Qed.


Lemma captureBegan_logOf (error : option string) :
  existsb isCaptureBegan (@logOf F error) = false.
Proof. destruct error; reflexivity. Qed.

Lemma cooldownActive_false (s : Runtime) (now : Date) :
  cooldownActive s now = false <->
  forall cooldown, cooldownUntil s = Some cooldown -> cooldown <= now.
Proof.
  unfold cooldownActive. destruct (cooldownUntil s) as [c|].
  - rewrite Z.ltb_ge. split.
    + intros H c' Hc. injection Hc as <-. exact H.
    + intros H. now apply H.
  - split; [discriminate | reflexivity].
Qed.

Lemma heardAt_frame (now : Date) (text : string) (s : Runtime) :
  isCapturing (heardAt now text s) = isCapturing s /\
  captureStartedAt (heardAt now text s) = captureStartedAt s /\
  cooldownUntil (heardAt now text s) = cooldownUntil s.
Proof. unfold heardAt. destruct (Str.isEmpty text); auto. Qed.

Ltac break_hyps :=
  repeat match goal with
  | H : _ /\ _ |- _ => destruct H
  | H : exists _, _ |- _ => destruct H
  | H : Some _ = Some _ |- _ => injection H as H; subst
  end.

Ltac closer := repeat split; intros; break_hyps; try congruence; eauto.

(** C5.  A recognition callback creates a capture session exactly when no
    capture is active, the transcript matches a trigger of the configuration
    and no cooldown later than the time of the event is set.  A match before
    the end of the cooldown creates none. *)
Theorem handleRecognition_creates_session
    (s : Runtime) (transcript error : option string) (config : RuntimeConfig)
    (now captureNow : Date) :
  let r := handleRecognition F transcript error config now captureNow s in
  let accepted :=
    isCapturing s = false /\
    (exists text, transcript = Some text /\
       matches text (triggers config) = true) /\
    (forall cooldown, cooldownUntil s = Some cooldown -> cooldown <= now) in
  (existsb isCaptureBegan (effectsOf r) = true <-> accepted)
  /\ (isCapturing s = false /\ isCapturing (stateOf r) = true <-> accepted)
  /\ (forall cooldown,
        cooldownUntil s = Some cooldown -> now < cooldown ->
        existsb isCaptureBegan (effectsOf r) = false /\
        isCapturing (stateOf r) = isCapturing s /\
        captureStartedAt (stateOf r) = captureStartedAt s).
Proof.
  cbv zeta. rewrite <- cooldownActive_false.
  assert (forall cooldown, cooldownUntil s = Some cooldown -> now < cooldown ->
          cooldownActive s now = true) as Hactive.
  { intros c Hc Hlt. unfold cooldownActive. rewrite Hc. now apply Z.ltb_lt. }
  destruct transcript as [text|].
  2:{ rewrite handleRecognition_no_transcript. unfold effectsOf, stateOf; cbn.
      rewrite captureBegan_logOf. closer. }
  destruct (isCapturing s) eqn:Hcap.
  - assert (existsb isCaptureBegan
              (effectsOf (handleRecognition F (Some text) error config now captureNow s))
            = false /\
            isCapturing
              (stateOf (handleRecognition F (Some text) error config now captureNow s))
            = true /\
            captureStartedAt
              (stateOf (handleRecognition F (Some text) error config now captureNow s))
            = captureStartedAt s) as (He & Hs & Hst).
    { destruct (Str.isEmpty text) eqn:Hempty.
      - apply StrFacts.isEmpty_true in Hempty. subst text.
        rewrite handleRecognition_capturing_empty by exact Hcap.
        unfold effectsOf, stateOf; cbn. rewrite captureBegan_logOf. auto.
      - rewrite handleRecognition_capturing by assumption.
        unfold effectsOf, stateOf; cbn.
        rewrite existsb_app, captureBegan_logOf. cbn. auto. }
    rewrite He, Hs, Hst. closer.
  - rewrite handleRecognition_listening by exact Hcap.
    destruct (heardAt_frame now text s) as (Hf1 & Hf2 & Hf3).
    destruct (matches text (triggers config)) eqn:Hm; cbn [andb].
    + destruct (cooldownActive s now) eqn:Hcd; cbn [negb].
      * unfold effectsOf, stateOf; cbn [fst snd].
        rewrite captureBegan_logOf, Hf1. closer.
      * rewrite beginCapture_eq. unfold effectsOf, stateOf; cbn [fst snd].
        rewrite existsb_app, captureBegan_logOf. cbn.
        closer;
          match goal with
          | Hc : cooldownUntil s = Some _, Hlt : now < _ |- _ =>
              specialize (Hactive _ Hc Hlt); congruence
          end.
    + unfold effectsOf, stateOf; cbn [fst snd].
      rewrite captureBegan_logOf, Hf1. closer.
Qed.

(** The frame with which the monitor enters its loop: the hard stop is the
    start of the capture plus [captureHardStop], and no strike is counted. *)
Lemma monitorEnter_frame (s : Runtime) (start entryNow : Date) :
  captureStartedAt s = Some start ->
  monitorEnter F entryNow s =
  ({| hardStop := start + captureHardStop; silentStrikes := 0 |}, s, []).
Proof. intros H. run. rewrite H. reflexivity. Qed.

(** The cases of a turn of the monitor loop on an active capture. *)
Lemma monitorPoll_cases
    (s : Runtime) (config : RuntimeConfig) (fwd : F) (frame : MonitorFrame)
    (now finalizeNow : Date) :
  isCapturing s = true ->
  let fin := finalizeCapture F config fwd finalizeNow s in
  let r := monitorPoll F config fwd frame now finalizeNow s in
  let goesOn strikes :=
    r = (Some {| hardStop := hardStop frame; silentStrikes := strikes |}, s,
         [Sleep pollInterval]) in
  let finalized :=
    r = (None, stateOf fin, effectsOf fin) /\ isCapturing (stateOf r) = false in
  (hardStop frame <= now -> finalized)
  /\ (forall last,
        now < hardStop frame -> lastHeard s = Some last ->
        silenceWindow <= timeIntervalSince now last ->
        (2 <= silentStrikes frame + 1 -> finalized) /\
        (silentStrikes frame + 1 < 2 -> goesOn (silentStrikes frame + 1)))
  /\ (forall last,
        now < hardStop frame -> lastHeard s = Some last ->
        timeIntervalSince now last < silenceWindow -> goesOn 0)
  /\ (now < hardStop frame -> lastHeard s = None -> goesOn 0)
  /\ (forall start entryNow,
        captureStartedAt s = Some start ->
        valueOf (monitorEnter F entryNow s) =
        {| hardStop := start + 8000; silentStrikes := 0 |}).
Proof.
  intros Hcap. destruct s as [rz ae it rr rt lh cs ct tr ic hb cu cc].
  cbn in Hcap. subst ic. cbv zeta.
  split; [|split; [|split; [|split]]].
  - intros Hhard. apply Z.leb_le in Hhard. run. rewrite Hhard. simp.
    destruct (Str.isEmpty _); simp; destruct cc; simp; auto.
  - intros last Hbefore Hlast Hsilent. cbn in Hlast. subst lh.
    apply Z.leb_gt in Hbefore. apply Z.leb_le in Hsilent.
    unfold timeIntervalSince in Hsilent.
    split; intros Hstrikes.
    + apply Z.leb_le in Hstrikes. run. unfold timeIntervalSince.
      rewrite Hbefore; simp. rewrite Hsilent; simp. rewrite Hstrikes; simp.
      destruct (Str.isEmpty _); simp; destruct cc; simp; auto.
    + apply Z.leb_gt in Hstrikes. run. unfold timeIntervalSince.
      rewrite Hbefore; simp. rewrite Hsilent; simp. rewrite Hstrikes; simp.
      reflexivity.
  - intros last Hbefore Hlast Hrecent. cbn in Hlast. subst lh.
    apply Z.leb_gt in Hbefore. apply Z.leb_gt in Hrecent.
    unfold timeIntervalSince in Hrecent. run. unfold timeIntervalSince.
    rewrite Hbefore; simp. rewrite Hrecent; simp. reflexivity.
  - intros Hbefore Hlast. cbn in Hlast. subst lh.
    apply Z.leb_gt in Hbefore. run. rewrite Hbefore; simp. reflexivity.
  - intros start entryNow H. rewrite (monitorEnter_frame _ _ _ H). reflexivity.
Qed.

(** A start in which a recognizer is made and available and the audio
    engine starts. *)
Lemma start_success (s : Runtime) (config : RuntimeConfig) (now : Date)
    (env : StartEnv) :
  recognizerCreated env = true ->
  recognizerAvailable env = true ->
  engineStarts env = true ->
  start F config now env s =
  (tt,
   set_recognitionTask (Some config)
     (set_cooldownUntil None
        (set_lastHeard (Some now)
           (set_currentConfig (Some config)
              (set_audioEngineRunning true
                 (set_inputTapInstalled true
                    (set_recognitionRequest true
                       (set_recognizer (Some (localeID config)) s))))))),
   [Log RuntimeStarted]).
Proof.
  intros Hc Ha He. run. rewrite Hc. simp. rewrite Ha. simp. rewrite He.
  reflexivity.
Qed.

(** C10.  A start that succeeds sets [lastHeard] to the time of the start and
    [cooldownUntil] to nil.  The start that finalization hands to a task is
    such a start: the cooldown that finalization set is gone when it has
    run. *)
Theorem start_resets_cooldown
    (config : RuntimeConfig) (now : Date) (env : StartEnv) :
  recognizerCreated env = true ->
  recognizerAvailable env = true ->
  engineStarts env = true ->
  (forall s : Runtime,
     let started := stateOf (start F config now env s) in
     lastHeard started = Some now /\
     cooldownUntil started = None /\
     currentConfig started = Some config /\
     recognitionTask started = Some config)
  /\ (forall (s : Runtime) (monitored : RuntimeConfig) (fwd : F)
        (finalizeNow : Date),
        isCapturing s = true ->
        currentConfig s = Some config ->
        let fin := finalizeCapture F monitored fwd finalizeNow s in
        let restarted := stateOf (start F config now env (stateOf fin)) in
        In (SpawnStart config) (effectsOf fin) /\
        cooldownUntil (stateOf fin) = Some (finalizeNow + debounceAfterSend) /\
        cooldownUntil restarted = None /\
        lastHeard restarted = Some now).
Proof.
  intros Hc Ha He. split.
  - intros s. cbv zeta. rewrite start_success by assumption.
    unfold stateOf. cbn. auto.
  - intros s monitored fwd finalizeNow Hcap Hcur. cbv zeta.
    rewrite start_success by assumption.
    split; [now apply finalizeCapture_spawns_start|].
    split; [now apply finalizeCapture_cooldown|].
    unfold stateOf at 1 3. cbn. auto.
Qed.

Lemma feed_cons (config : RuntimeConfig) (u : Update) (rest : list Update)
    (s : Runtime) :
  stateOf (feed F config (u :: rest) s) =
  stateOf (feed F config rest
             (stateOf (handleRecognition F (Some (updTranscript u)) (updError u)
                         config (updNow u) (updNow u) s))).
Proof.
  cbn [feed]. unfold bind, stateOf.
  destruct (handleRecognition F _ _ _ _ _ s) as [[x s1] e1]. cbn.
  destruct (feed F config rest s1) as [[y s2] e2]. reflexivity.
Qed.

Lemma feed_app (config : RuntimeConfig) (seen later : list Update) (s : Runtime) :
  stateOf (feed F config (seen ++ later) s) =
  stateOf (feed F config later (stateOf (feed F config seen s))).
Proof.
  revert s; induction seen as [|u seen IH]; intros s; [reflexivity|].
  cbn [app]. now rewrite !feed_cons, IH.
Qed.

(** Non-empty updates keep an active capture active, and raise the flag as
    soon as one of them holds two words. *)
Lemma feed_capturing (config : RuntimeConfig) (updates : list Update) (s : Runtime) :
  isCapturing s = true ->
  Forall (fun u => updTranscript u <> "") updates ->
  isCapturing (stateOf (feed F config updates s)) = true /\
  heardBeyondTrigger (stateOf (feed F config updates s)) =
  heardBeyondTrigger s ||
  existsb textHasBeyondTriggerContent (map updTranscript updates).
Proof.
  intros Hcap Hne; revert s Hcap.
  induction Hne as [|u rest Hu Hrest IH]; intros s Hcap.
  - cbn. now rewrite orb_false_r.
  - rewrite feed_cons.
    apply StrFacts.isEmpty_false in Hu.
    rewrite handleRecognition_capturing by assumption.
    unfold stateOf at 2 4. cbn [fst snd].
    match goal with
    | |- context [feed F config rest ?x] => destruct (IH x) as [H1 H2]
    end; [exact Hcap|].
    rewrite H1, H2. cbn. now rewrite orb_assoc.
Qed.

(** C1.  From the transcript that begins a capture on, the flag
    [heardBeyondTrigger] is true exactly when that transcript or one of the
    non-empty updates received since holds two or more words separated by
    whitespace, the words of the trigger included.  So it is true when two
    or more words follow the trigger in one of them.  The capture stays
    active under such updates, and a flag that is true stays true under the
    updates that follow. *)
Theorem heardBeyondTrigger_tracks_transcripts
    (s : Runtime) (config : RuntimeConfig) (first : string)
    (error : option string) (now captureNow : Date) (updates : list Update) :
  isCapturing s = false ->
  matches first (triggers config) = true ->
  cooldownActive s now = false ->
  Forall (fun u => updTranscript u <> "") updates ->
  let begun :=
    stateOf (handleRecognition F (Some first) error config now captureNow s) in
  forall seen later, updates = (seen ++ later)%list ->
    let current := stateOf (feed F config seen begun) in
    isCapturing current = true /\
    heardBeyondTrigger current =
      existsb textHasBeyondTriggerContent (first :: map updTranscript seen) /\
    (existsb (wordsBeyondTrigger config) (first :: map updTranscript seen) = true ->
     heardBeyondTrigger current = true) /\
    (heardBeyondTrigger current = true ->
     heardBeyondTrigger (stateOf (feed F config updates begun)) = true).
Proof.
  intros Hcap Hm Hcd Hne begun seen later ->. cbv zeta.
  apply Forall_app in Hne. destruct Hne as [Hseen Hlater].
  assert (isCapturing begun = true /\
          heardBeyondTrigger begun = textHasBeyondTriggerContent first)
    as [Hb1 Hb2].
  { unfold begun. rewrite handleRecognition_listening by exact Hcap.
    rewrite Hm, Hcd. cbn [andb negb]. rewrite beginCapture_eq.
    unfold stateOf. cbn. auto. }
  destruct (feed_capturing config seen begun Hb1 Hseen) as [Hs1 Hs2].
  assert (heardBeyondTrigger (stateOf (feed F config seen begun)) =
          existsb textHasBeyondTriggerContent (first :: map updTranscript seen))
    as Hflag by (rewrite Hs2, Hb2; reflexivity).
  split; [exact Hs1|]. split; [exact Hflag|]. split.
  - rewrite Hflag. intros Hex. apply existsb_exists in Hex.
    destruct Hex as (t & Hin & Ht). apply existsb_exists. exists t.
    split; [exact Hin|]. exact (Matcher.trimmed_beyond_trigger _ _ Ht).
  - intros Htrue. rewrite feed_app.
    destruct (feed_capturing config later _ Hs1 Hlater) as [_ Hl2].
    rewrite Hl2, Htrue. reflexivity.
Qed.

(** *** What holds in every reachable state *)







(** C4.  A turn of the monitor loop on an active capture: at or past the
    hard stop, which the monitor sets to the start of the capture plus
    8000 ms, the capture is finalized whatever the last activity; before
    it, a last activity at least [silenceWindow] old counts a strike, and
    the capture is finalized when the strikes reach 2 and goes on with the
    new count otherwise; in every other case the strikes go back to 0 and
    the capture goes on.  A turn that goes on leaves the runtime unchanged
    and sleeps for the poll interval. *)
Theorem monitorPoll_spec
    (s : Runtime) (config : RuntimeConfig) (fwd : F) (frame : MonitorFrame)
    (now finalizeNow : Date) :
  isCapturing s = true ->
  let fin := finalizeCapture F config fwd finalizeNow s in
  let r := monitorPoll F config fwd frame now finalizeNow s in
  let goesOn strikes :=
    r = (Some {| hardStop := hardStop frame; silentStrikes := strikes |}, s,
         [Sleep pollInterval]) in
  let finalized :=
    r = (None, stateOf fin, effectsOf fin) /\ isCapturing (stateOf r) = false in
  (hardStop frame <= now -> finalized)
  /\ (forall last,
        now < hardStop frame -> lastHeard s = Some last ->
        silenceWindow <= timeIntervalSince now last ->
        (2 <= silentStrikes frame + 1 -> finalized) /\
        (silentStrikes frame + 1 < 2 -> goesOn (silentStrikes frame + 1)))
  /\ (forall last,
        now < hardStop frame -> lastHeard s = Some last ->
        timeIntervalSince now last < silenceWindow -> goesOn 0)
  /\ (now < hardStop frame -> lastHeard s = None -> goesOn 0)
  /\ (forall start entryNow,
        captureStartedAt s = Some start ->
        valueOf (monitorEnter F entryNow s) =
        {| hardStop := start + 8000; silentStrikes := 0 |})
  /\ (forall start entryNow,
        captureStartedAt s = Some start ->
        start + 8000 <= now ->
        isCapturing
          (stateOf (monitorPoll F config fwd (valueOf (monitorEnter F entryNow s))
                      now finalizeNow s)) = false).
Proof.
  intros Hcap.
  destruct (monitorPoll_cases s config fwd frame now finalizeNow Hcap)
    as (H1 & H2 & H3 & H4 & H5).
  repeat (split; [assumption|]).
  intros start entryNow Hstart Hpast.
  rewrite (monitorEnter_frame s start entryNow Hstart).
  unfold valueOf at 1. cbn [fst].
  apply (monitorPoll_cases s config fwd
           {| hardStop := start + captureHardStop; silentStrikes := 0 |}
           now finalizeNow Hcap).
  exact Hpast.
Qed.

(** *** The cooldown around the restart *)

(** Between finalization and the restart it hands over, a callback that
    arrives before the end of the cooldown begins no capture. *)
Lemma cooldown_holds_until_restart
    (s : Runtime) (monitored config : RuntimeConfig) (fwd : F)
    (finalizeNow now captureNow : Date) (transcript error : option string) :
  isCapturing s = true ->
  now < finalizeNow + debounceAfterSend ->
  let finalized := stateOf (finalizeCapture F monitored fwd finalizeNow s) in
  let r := handleRecognition F transcript error config now captureNow finalized in
  isCapturing (stateOf r) = false /\
  existsb isCaptureBegan (effectsOf r) = false.
Proof.
  intros Hcap Hlt. cbv zeta.
  pose proof (finalizeCapture_cooldown s monitored fwd finalizeNow Hcap) as Hcd.
  pose proof (finalizeCapture_not_capturing s monitored fwd finalizeNow) as Hidle.
  destruct transcript as [text|].
  - rewrite handleRecognition_listening by exact Hidle.
    assert (cooldownActive
              (stateOf (finalizeCapture F monitored fwd finalizeNow s)) now = true)
      as -> by (unfold cooldownActive; rewrite Hcd; now apply Z.ltb_lt).
    rewrite andb_false_r. unfold stateOf, effectsOf. cbn [fst snd].
    rewrite captureBegan_logOf. split; [|reflexivity].
    destruct (heardAt_frame now text
                (snd (fst (finalizeCapture F monitored fwd finalizeNow s))))
      as [-> _]. exact Hidle.
  - rewrite handleRecognition_no_transcript. unfold stateOf, effectsOf.
    cbn [fst snd]. rewrite captureBegan_logOf. split; [exact Hidle | reflexivity].
Qed.

(** Once the restart has run, a transcript that matches a trigger begins a
    capture at whatever time it arrives, also before the end of the cooldown
    that finalization had set. *)
Lemma trigger_after_restart_begins_capture
    (s : Runtime) (monitored config : RuntimeConfig) (fwd : F)
    (finalizeNow startNow now captureNow : Date) (env : StartEnv)
    (text : string) (error : option string) :
  isCapturing s = true ->
  recognizerCreated env = true ->
  recognizerAvailable env = true ->
  engineStarts env = true ->
  matches text (triggers config) = true ->
  let finalized := stateOf (finalizeCapture F monitored fwd finalizeNow s) in
  let restarted := stateOf (start F config startNow env finalized) in
  let r := handleRecognition F (Some text) error config now captureNow restarted in
  cooldownUntil finalized = Some (finalizeNow + debounceAfterSend) /\
  cooldownUntil restarted = None /\
  isCapturing restarted = false /\
  isCapturing (stateOf r) = true /\
  existsb isCaptureBegan (effectsOf r) = true.
Proof.
  intros Hcap Hc Ha He Hm. cbv zeta.
  pose proof (finalizeCapture_cooldown s monitored fwd finalizeNow Hcap) as Hcd.
  pose proof (finalizeCapture_not_capturing s monitored fwd finalizeNow) as Hidle.
  set (finalized := stateOf (finalizeCapture F monitored fwd finalizeNow s)) in *.
  clearbody finalized.
  rewrite start_success by assumption.
  split; [exact Hcd|]. unfold stateOf at 1 2. cbn [fst snd].
  split; [reflexivity|]. split; [exact Hidle|].
  unfold stateOf at 2. unfold stateOf at 2. cbn [fst snd].
  rewrite handleRecognition_listening by exact Hidle.
  rewrite Hm. unfold cooldownActive. cbn.
  rewrite existsb_app, captureBegan_logOf. split; reflexivity.
Qed.

End RuntimeFacts.

(** ** Scenarios *)

Example lowercased_example : Str.lowercased "Hey Claw!" = "hey claw!".
Proof. vm_compute. reflexivity. Qed.

Example trimming_example :
  Str.trimmingWhitespace (String "009" "  what time  ") = "what time".
Proof. vm_compute. reflexivity. Qed.

Example rangeOf_example :
  Str.rangeOf "say hey claw now" "hey claw" = Some (4%nat, 12%nat).
Proof. vm_compute. reflexivity. Qed.

Example splitWhitespace_example :
  Str.splitWhitespace "  hey   claw what " = ["hey"; "claw"; "what"].
Proof. vm_compute. reflexivity. Qed.

Example matches_examples :
  matches "Hey Claw" ["hey claw"] = true /\
  matches "oh HEYCLAWS" ["  Hey";  "claw "] = true /\
  matches "hey there" [""; " "; "claw"] = false.
Proof. vm_compute. repeat split. Qed.

Example trimmedAfterTrigger_examples :
  trimmedAfterTrigger "Hey Claw what time is it" ["hey claw"] = "what time is it" /\
  trimmedAfterTrigger "claw one claw two" ["nothing"; "Claw"] = "one claw two" /\
  trimmedAfterTrigger "what time is it" ["hey claw"] = "what time is it".
Proof. vm_compute. repeat split. Qed.

(** The capture of "hey claw what time is it": the session holds the words
    after the trigger, and the flag is set. *)
Example capture_begins :
  handleRecognition unit (Some "hey claw what time is it") None heyClaw 1000 1000
    (listening heyClaw 0) =
  (tt, capturing heyClaw "hey claw what time is it" 1000,
   [OverlayShowPartial "what time is it"; TriggerVoiceEars; SpawnMonitor heyClaw])
  /\ capturedTranscript (capturing heyClaw "hey claw what time is it" 1000)
     = "what time is it"
  /\ heardBeyondTrigger (capturing heyClaw "hey claw what time is it" 1000) = true
  /\ lastHeard (capturing heyClaw "hey claw what time is it" 1000) = Some 1000.
Proof. vm_compute. repeat split. Qed.

(** That capture under silence: the polls at 1200 to 1800 find the last
    activity recent, the poll at 2000 counts a first strike, the poll at
    2200 a second one and finalizes. *)
Example silence_finalizes :
  let s := capturing heyClaw "hey claw what time is it" 1000 in
  let frame := valueOf (monitorEnter unit 1000 s) in
  frame = {| hardStop := 9000; silentStrikes := 0 |} /\
  monitorPoll unit heyClaw tt frame 1800 1800 s
    = (Some {| hardStop := 9000; silentStrikes := 0 |}, s, [Sleep 200]) /\
  monitorPoll unit heyClaw tt frame 2000 2000 s
    = (Some {| hardStop := 9000; silentStrikes := 1 |}, s, [Sleep 200]) /\
  effectsOf (monitorPoll unit heyClaw tt
               {| hardStop := 9000; silentStrikes := 1 |} 2200 2200 s)
    = [StopVoiceEars; OverlayPresentFinal "what time is it" tt 1000;
       Log RuntimeStopped; OverlayDismiss; SpawnStart heyClaw].
Proof. vm_compute. repeat split. Qed.

(** A witness of C6: the settings of [heyClaw] pushed again while the
    runtime listens with [heyClaw]. *)
Lemma refresh_same_config_is_noop_witness :
  swabbleEnabled heyClawSettings = true /\
  currentConfig (listening heyClaw 0) = Some (snapshotConfig heyClawSettings) /\
  recognitionTask (listening heyClaw 0) = Some heyClaw /\
  refresh unit true heyClawSettings true 5000 startSucceeds (listening heyClaw 0)
  = (tt, listening heyClaw 0, []).
Proof.
  split; [reflexivity|]. split; [reflexivity|]. split; [reflexivity|].
  apply (@refresh_same_config_is_noop unit (listening heyClaw 0)
           heyClawSettings 5000 startSucceeds heyClaw); reflexivity.
Defined.

(** A witness of C3: the capture of "hey claw what time is it", finalized at
    2200. *)
Lemma finalizeCapture_notifications_witness :
  let s := capturing heyClaw "hey claw what time is it" 1000 in
  let sent := effectsOf (finalizeCapture unit heyClaw tt 2200 s) in
  isCapturing s = true /\
  countEffects isPresentFinal sent = 1%nat /\
  filter isPresentFinal sent = [OverlayPresentFinal "what time is it" tt 1000] /\
  countEffects isDismissEmpty sent = 0%nat.
Proof.
  split; [reflexivity|].
  exact (@finalizeCapture_notifications unit
           (capturing heyClaw "hey claw what time is it" 1000) heyClaw tt 2200
           eq_refl).
Defined.

(** A witness of C4: the capture begun at 1000 polled at its hard stop,
    9000, with activity as late as 8900. *)
Lemma monitorPoll_spec_witness :
  let s := set_lastHeard (Some 8900)
             (capturing heyClaw "hey claw what time is it" 1000) in
  let frame := {| hardStop := 9000; silentStrikes := 0 |} in
  isCapturing s = true /\
  hardStop frame <= 9000 /\
  valueOf (monitorPoll unit heyClaw tt frame 9000 9000 s) = None /\
  isCapturing (stateOf (monitorPoll unit heyClaw tt frame 9000 9000 s)) = false.
Proof.
  cbv zeta. split; [reflexivity|]. split; [apply Z.le_refl|].
  destruct (@monitorPoll_spec unit
              (set_lastHeard (Some 8900)
                 (capturing heyClaw "hey claw what time is it" 1000))
              heyClaw tt {| hardStop := 9000; silentStrikes := 0 |} 9000 9000
              eq_refl) as [Hhard _].
  destruct (Hhard (Z.le_refl 9000)) as [Hr Hidle].
  split; [|exact Hidle]. rewrite Hr. reflexivity.
Defined.

(** A witness of C10: the restart that follows the finalization at 2200. *)
Lemma start_resets_cooldown_witness :
  let s := capturing heyClaw "hey claw what time is it" 1000 in
  let fin := finalizeCapture unit heyClaw tt 2200 s in
  let restarted := stateOf (start unit heyClaw 2250 startSucceeds (stateOf fin)) in
  recognizerCreated startSucceeds = true /\
  recognizerAvailable startSucceeds = true /\
  engineStarts startSucceeds = true /\
  isCapturing s = true /\
  currentConfig s = Some heyClaw /\
  In (SpawnStart heyClaw) (effectsOf fin) /\
  cooldownUntil (stateOf fin) = Some 2550 /\
  cooldownUntil restarted = None /\
  lastHeard restarted = Some 2250.
Proof.
  cbv zeta. do 5 (split; [reflexivity|]).
  exact (proj2 (@start_resets_cooldown unit heyClaw 2250 startSucceeds
                  eq_refl eq_refl eq_refl)
           (capturing heyClaw "hey claw what time is it" 1000) heyClaw tt 2200
           eq_refl eq_refl).
Defined.

(** A witness of C1: with the trigger "claw", the transcript "claw" begins
    a capture and comes again as an update, then "claw open the door"
    arrives. *)
Lemma heardBeyondTrigger_tracks_transcripts_witness :
  let s := listening claw 0 in
  let updates := [update "claw" 1200; update "claw open the door" 1400] in
  let begun := stateOf (handleRecognition unit (Some "claw") None claw 1000 1000 s) in
  isCapturing s = false /\
  matches "claw" (triggers claw) = true /\
  cooldownActive s 1000 = false /\
  Forall (fun u => updTranscript u <> "") updates /\
  heardBeyondTrigger begun = false /\
  heardBeyondTrigger (stateOf (feed unit claw [update "claw" 1200] begun)) = false /\
  heardBeyondTrigger (stateOf (feed unit claw updates begun)) = true.
Proof.
  cbv zeta.
  assert (Forall (fun u => updTranscript u <> "")
            [update "claw" 1200; update "claw open the door" 1400]) as Hne
    by (repeat constructor; discriminate).
  do 3 (split; [reflexivity|]). split; [exact Hne|].
  pose proof (@heardBeyondTrigger_tracks_transcripts unit (listening claw 0) claw
                "claw" None 1000 1000
                [update "claw" 1200; update "claw open the door" 1400]
                eq_refl eq_refl eq_refl Hne) as H.
  cbv zeta in H.
  destruct (H [] [update "claw" 1200; update "claw open the door" 1400] eq_refl)
    as (_ & Hbegun & _).
  destruct (H [update "claw" 1200] [update "claw open the door" 1400] eq_refl)
    as (_ & Hone & _).
  destruct (H [update "claw" 1200; update "claw open the door" 1400] [] eq_refl)
    as (_ & Hall & _).
  vm_compute in Hbegun, Hone, Hall |- *. auto.
Defined.

(** C1, a counterexample to the reading by the words after the trigger.
    With the trigger "hey claw", the transcript "hey claw" begins a capture
    and is delivered once more as an update: nothing follows the trigger in
    either, and the flag is true. *)
Lemma heardBeyondTrigger_counterexample :
  let begun := capturing heyClaw "hey claw" 1000 in
  let current := stateOf (feed unit heyClaw [update "hey claw" 1200] begun) in
  trimmedAfterTrigger "hey claw" (triggers heyClaw) = "" /\
  existsb (wordsBeyondTrigger heyClaw) ["hey claw"; "hey claw"] = false /\
  isCapturing begun = true /\
  heardBeyondTrigger begun = true /\
  isCapturing current = true /\
  heardBeyondTrigger current = true.
Proof. vm_compute. repeat split. Qed.

(** C2.  The cooldown that finalization sets does not outlast the restart
    that finalization hands over.  A capture with the trigger "claw" is
    finalized at 3000, which sets the cooldown to 3350; the restart runs at
    3000 and sets the cooldown to nil; the transcript "claw again" at 3100,
    before 3350, begins a capture. *)
Theorem cooldown_erased_by_restart :
  let s := capturing claw "claw hello" 1000 in
  let fin := finalizeCapture unit claw tt 3000 s in
  let restarted := stateOf (start unit claw 3000 startSucceeds (stateOf fin)) in
  let r := handleRecognition unit (Some "claw again") None claw 3100 3100 restarted in
  isCapturing s = true /\
  effectsOf fin = [StopVoiceEars; OverlayPresentFinal "hello" tt 1000;
                   Log RuntimeStopped; OverlayDismiss; SpawnStart claw] /\
  cooldownUntil (stateOf fin) = Some 3350 /\
  cooldownUntil restarted = None /\
  3100 < 3350 /\
  isCapturing restarted = false /\
  isCapturing (stateOf r) = true /\
  effectsOf r = [OverlayShowPartial "again"; TriggerVoiceEars; SpawnMonitor claw].
Proof. vm_compute. repeat split. Qed.

(** The empty branch loses its cooldown to the restart in the same way. *)
Example cooldown_erased_by_restart_empty :
  let s := capturing claw "claw" 1000 in
  let fin := finalizeCapture unit claw tt 3000 s in
  let restarted := stateOf (start unit claw 3000 startSucceeds (stateOf fin)) in
  let r := handleRecognition unit (Some "claw") None claw 3100 3100 restarted in
  effectsOf fin = [StopVoiceEars; OverlayDismissReason Empty;
                   Log RuntimeStopped; OverlayDismiss; SpawnStart claw] /\
  cooldownUntil (stateOf fin) = Some 3350 /\
  cooldownUntil restarted = None /\
  isCapturing (stateOf r) = true.
Proof. vm_compute. repeat split. Qed.

(** Before the restart has run the cooldown holds: the same transcript at
    3100 begins no capture. *)
Example cooldown_before_restart :
  let s := capturing claw "claw hello" 1000 in
  let finalized := stateOf (finalizeCapture unit claw tt 3000 s) in
  handleRecognition unit (Some "claw again") None claw 3100 3100 finalized
  = (tt, set_lastHeard (Some 3100) finalized, []).
Proof. vm_compute. reflexivity. Qed.

(** ** The cut after the trigger, on texts of any scalars *)

Module WideFacts.

(** *** Texts of U+0000 to U+00FF: the two models agree *)

Lemma lowerScalar_ofAscii (c : ascii) :
  Wide.lowerScalar (N_of_ascii c) = [N_of_ascii (Str.lowerChar c)].
Proof. destruct c as [[] [] [] [] [] [] [] []]; reflexivity. Qed.

Lemma isWhitespace_ofAscii (c : ascii) :
  Wide.isWhitespace (N_of_ascii c) = Str.isWhitespace c.
Proof. destruct c as [[] [] [] [] [] [] [] []]; reflexivity. Qed.

Lemma utf8Width_lowerChar (c : ascii) :
  Wide.utf8Width (N_of_ascii (Str.lowerChar c)) = Wide.utf8Width (N_of_ascii c).
Proof. destruct c as [[] [] [] [] [] [] [] []]; reflexivity. Qed.

Lemma utf8Width_positive (c : Wide.Scalar) : (1 <= Wide.utf8Width c)%nat.
Proof.
  unfold Wide.utf8Width.
  destruct (c <? 128)%N; [lia|]. destruct (c <? 2048)%N; [lia|].
  destruct (c <? 65536)%N; lia.
Qed.

Lemma eqb_ofAscii (a b : ascii) :
  N.eqb (N_of_ascii a) (N_of_ascii b) = Ascii.eqb a b.
Proof.
  destruct (Ascii.eqb_spec a b) as [->|Hne]; [apply N.eqb_refl|].
  apply N.eqb_neq. intros H. apply Hne.
  rewrite <- (ascii_N_embedding a), <- (ascii_N_embedding b). now rewrite H.
Qed.

Lemma isEmpty_ofString (s : string) : Wide.isEmpty (Wide.ofString s) = Str.isEmpty s.
Proof. now destruct s. Qed.

Lemma lowercased_ofString (s : string) :
  Wide.lowercased (Wide.ofString s) = Wide.ofString (Str.lowercased s).
Proof.
  induction s as [|c r IH]; simpl; [reflexivity|].
  now rewrite lowerScalar_ofAscii, IH.
Qed.

Lemma dropLeading_ofString (s : string) :
  Wide.dropLeadingWhitespace (Wide.ofString s) = Wide.ofString (Str.dropLeadingWhitespace s).
Proof.
  induction s as [|c r IH]; simpl; [reflexivity|].
  rewrite isWhitespace_ofAscii. now destruct (Str.isWhitespace c).
Qed.

Lemma dropTrailing_ofString (s : string) :
  Wide.dropTrailingWhitespace (Wide.ofString s) = Wide.ofString (Str.dropTrailingWhitespace s).
Proof.
  induction s as [|c r IH]; simpl; [reflexivity|].
  rewrite isWhitespace_ofAscii, IH, isEmpty_ofString.
  now destruct (Str.isWhitespace c && Str.isEmpty (Str.dropTrailingWhitespace r)).
Qed.

Lemma trimming_ofString (s : string) :
  Wide.trimmingWhitespace (Wide.ofString s) = Wide.ofString (Str.trimmingWhitespace s).
Proof.
  unfold Wide.trimmingWhitespace, Str.trimmingWhitespace.
  now rewrite dropLeading_ofString, dropTrailing_ofString.
Qed.

Lemma triggerToken_ofString (trigger : string) :
  Wide.triggerToken (Wide.ofString trigger) = Wide.ofString (triggerToken trigger).
Proof.
  unfold Wide.triggerToken, triggerToken.
  now rewrite lowercased_ofString, trimming_ofString.
Qed.

Lemma hasPrefix_ofString (p s : string) :
  Wide.hasPrefix (Wide.ofString p) (Wide.ofString s) = Str.hasPrefix p s.
Proof.
  revert s; induction p as [|a p IH]; intros s; [reflexivity|].
  destruct s as [|b s]; simpl; [reflexivity|].
  now rewrite eqb_ofAscii, IH.
Qed.

(** Where lowercasing keeps the width of every scalar, the upper bound of a
    match at the start of the lowercase form cuts the text itself after the
    matched characters. *)
Lemma cut_after_prefix (t s : string) :
  Str.hasPrefix t (Str.lowercased s) = true ->
  Wide.suffixFromOffset (Wide.utf8Count (Wide.ofString t)) (Wide.ofString s)
  = Wide.Returned (Wide.ofString (Str.suffixFrom (String.length t) s)).
Proof.
  revert s; induction t as [|a t IH]; intros s; simpl.
  - intros _. destruct s as [|c r]; simpl; [reflexivity|].
    pose proof (utf8Width_positive (N_of_ascii c)) as Hw.
    destruct (Wide.utf8Width (N_of_ascii c)); [lia | reflexivity].
  - destruct s as [|c r]; simpl; [discriminate|].
    intros H. apply andb_true_iff in H. destruct H as [Ha Ht].
    apply Ascii.eqb_eq in Ha. subst a. rewrite utf8Width_lowerChar.
    assert ((Wide.utf8Width (N_of_ascii c)
             <=? Wide.utf8Width (N_of_ascii c) + Wide.utf8Count (Wide.ofString t))%nat = true)
      as -> by (apply Nat.leb_le; lia).
    replace (Wide.utf8Width (N_of_ascii c) + Wide.utf8Count (Wide.ofString t)
             - Wide.utf8Width (N_of_ascii c))%nat
      with (Wide.utf8Count (Wide.ofString t)) by lia.
    now apply IH.
Qed.

Lemma cut_after_range (s t : string) :
  match Str.rangeOf (Str.lowercased s) t with
  | Some (_, hi) =>
      exists lo' hi',
        Wide.rangeOf (Wide.ofString (Str.lowercased s)) (Wide.ofString t) = Some (lo', hi') /\
        Wide.suffixFromOffset hi' (Wide.ofString s)
        = Wide.Returned (Wide.ofString (Str.suffixFrom hi s))
  | None => Wide.rangeOf (Wide.ofString (Str.lowercased s)) (Wide.ofString t) = None
  end.
Proof.
  induction s as [|c r IH].
  - cbn [Str.lowercased Str.rangeOf Wide.ofString Wide.rangeOf].
    rewrite <- (hasPrefix_ofString t ""). cbn [Wide.ofString].
    destruct (Wide.hasPrefix (Wide.ofString t) []) eqn:Hp; [|reflexivity].
    exists 0%nat, (Wide.utf8Count (Wide.ofString t)). split; [reflexivity|].
    apply (cut_after_prefix t "").
    rewrite <- hasPrefix_ofString. exact Hp.
  - cbn [Str.lowercased Str.rangeOf Wide.ofString Wide.rangeOf].
    change (N_of_ascii (Str.lowerChar c) :: Wide.ofString (Str.lowercased r))
      with (Wide.ofString (String (Str.lowerChar c) (Str.lowercased r))).
    rewrite hasPrefix_ofString.
    destruct (Str.hasPrefix t (String (Str.lowerChar c) (Str.lowercased r)))
      eqn:Hp.
    + exists 0%nat, (Wide.utf8Count (Wide.ofString t)). split; [reflexivity|].
      apply (cut_after_prefix t (String c r)). exact Hp.
    + destruct (Str.rangeOf (Str.lowercased r) t) as [[lo hi]|].
      * destruct IH as (lo' & hi' & -> & Hcut).
        eexists _, _. split; [reflexivity|].
        cbn [Wide.ofString Wide.suffixFromOffset Str.suffixFrom].
        rewrite utf8Width_lowerChar.
        assert ((Wide.utf8Width (N_of_ascii c)
                 <=? Wide.utf8Width (N_of_ascii c) + hi')%nat = true)
          as -> by (apply Nat.leb_le; lia).
        replace (Wide.utf8Width (N_of_ascii c) + hi' - Wide.utf8Width (N_of_ascii c))%nat
          with hi' by lia.
        exact Hcut.
      * now rewrite IH.
Qed.

(** On the texts of U+0000 to U+00FF the source never fails, and returns
    what [trimmedAfterTrigger] of the coarser model returns. *)
Lemma trimmedAfterTrigger_ofString (text : string) (triggers : list string) :
  Wide.trimmedAfterTrigger (Wide.ofString text) (map Wide.ofString triggers)
  = Wide.Returned (Wide.ofString (trimmedAfterTrigger text triggers)).
Proof.
  unfold Wide.trimmedAfterTrigger, trimmedAfterTrigger.
  rewrite lowercased_ofString.
  induction triggers as [|tr rest IH]; [reflexivity|].
  cbn [map Wide.trimmedAfterFirst trimmedAfterFirst].
  rewrite triggerToken_ofString, isEmpty_ofString.
  destruct (Str.isEmpty (triggerToken tr)); [exact IH|].
  pose proof (cut_after_range text (triggerToken tr)) as Hcut.
  destruct (Str.rangeOf (Str.lowercased text) (triggerToken tr)) as [[lo hi]|].
  - destruct Hcut as (lo' & hi' & -> & ->). now rewrite trimming_ofString.
  - rewrite Hcut. exact IH.
Qed.

(** C8.  [trimmedAfterTrigger] takes the upper bound of the match in the
    lowercased text and cuts the text itself at that index.  A capital I
    with dot above before the trigger makes the lowercased text one byte
    longer, so the cut falls behind the end of the match.  In
    "İzmir İstanbul claw ara" the trigger "claw" is followed by " ara", and
    the source returns "ra"; in "İstanbul claw" the index lies beyond the
    end of the text and the program stops. *)
Theorem trimmedAfterTrigger_index_of_lowercased :
  let I := Wide.capitalIWithDot in
  let before := I :: Wide.ofString "zmir " ++ I :: Wide.ofString "stanbul " in
  let matched := Wide.ofString "claw" in
  let after := Wide.ofString " ara" in
  let text := (before ++ matched ++ after)%list in
  let triggers := [Wide.ofString "claw"] in
  Wide.lowercased matched = Wide.triggerToken (Wide.ofString "claw")
  /\ Wide.lowercased text = (Wide.lowercased before ++ Wide.lowercased matched ++ Wide.lowercased after)%list
  /\ Wide.rangeOf (Wide.lowercased before) (Wide.lowercased matched) = None
  /\ Wide.utf8Count (Wide.lowercased before) = (Wide.utf8Count before + 2)%nat
  /\ Wide.trimmingWhitespace after = Wide.ofString "ara"
  /\ Wide.trimmedAfterTrigger text triggers = Wide.Returned (Wide.ofString "ra")
  /\ Wide.trimmedAfterTrigger (I :: Wide.ofString "stanbul claw") triggers
     = Wide.IndexOutOfBounds.
Proof. vm_compute. repeat split. Qed.

End WideFacts.

(** ** The lifecycle: stopping, starting, refreshing *)

Section Lifecycle.

Context {F : Type}.

Ltac simp :=
  cbn -[textHasBeyondTriggerContent matches trimmedAfterTrigger
        Str.trimmingWhitespace Z.add Z.sub Z.ltb Z.leb].

Ltac run :=
  cbv [handleRecognition beginCapture finalizeCapture restartRecognizer
       updateHeardBeyondTrigger monitorPoll monitorEnter refresh start stop
       configureSession bind ret gets modify emit stateOf effectsOf valueOf];
  simp.

(** [stop] as one update of the state. *)
Lemma stop_eq (s : Runtime) :
  stop F s =
  (tt,
   set_currentConfig None
     (set_audioEngineRunning false
        (set_inputTapInstalled false
           (set_recognitionRequest false
              (set_recognitionTask None
                 (set_captureStartedAt None
                    (set_capturedTranscript ""
                       (set_isCapturing false (set_captureTask None s)))))))),
   [Log RuntimeStopped; OverlayDismiss]).
Proof. reflexivity. Qed.

Lemma stop_isStopped (s : Runtime) : isStopped (stateOf (stop F s)).
Proof. rewrite stop_eq. unfold isStopped, stateOf. cbn. repeat split. Qed.

(** X1.  [stop] brings any runtime to a stopped one and leaves the
    recognizer, the last activity, the cooldown and the flag as they are; a
    second [stop] changes nothing more. *)
Theorem stop_idempotent (s : Runtime) :
  let stopped := stateOf (stop F s) in
  isStopped stopped /\
  recognizer stopped = recognizer s /\
  lastHeard stopped = lastHeard s /\
  cooldownUntil stopped = cooldownUntil s /\
  heardBeyondTrigger stopped = heardBeyondTrigger s /\
  stateOf (stop F stopped) = stopped.
Proof.
  cbv zeta. split; [apply stop_isStopped|].
  destruct s as [rz ae it rr rt lh cs ct tr ic hb cu cc].
  vm_compute. repeat split.
Qed.

(** X2.  [refresh] with the feature unsupported or disabled, or with
    permissions missing, does what [stop] does and starts nothing, whatever
    the settings and the environment: the runtime ends stopped, and apart
    from log entries the one notification is the dismissal of the overlay. *)
Theorem refresh_off_stops
    (s : Runtime) (supported : bool) (state : AppState) (granted : bool)
    (now : Date) (env : StartEnv) :
  supported && swabbleEnabled state && granted = false ->
  let r := refresh F supported state granted now env s in
  stateOf r = stateOf (stop F s) /\
  isStopped (stateOf r) /\
  filter (fun e => negb (isLog e)) (effectsOf r) = [OverlayDismiss].
Proof.
  intros Hoff. cbv zeta.
  assert (stateOf (refresh F supported state granted now env s)
          = stateOf (stop F s) /\
          filter (fun e => negb (isLog e))
            (effectsOf (refresh F supported state granted now env s))
          = [OverlayDismiss]) as [Hs He].
  { unfold refresh.
    destruct supported, (swabbleEnabled state), granted;
      try discriminate; split; reflexivity. }
  rewrite Hs. split; [reflexivity|]. split; [apply stop_isStopped | exact He].
Qed.

Lemma start_run (s : Runtime) (config : RuntimeConfig) (now : Date)
    (env : StartEnv) :
  start F config now env s =
  if recognizerCreated env && recognizerAvailable env then
    if engineStarts env then
      (tt,
       set_recognitionTask (Some config)
         (set_cooldownUntil None
            (set_lastHeard (Some now)
               (set_currentConfig (Some config)
                  (set_audioEngineRunning true
                     (set_inputTapInstalled true
                        (set_recognitionRequest true
                           (set_recognizer (Some (localeID config)) s))))))),
       [Log RuntimeStarted])
    else
      (tt,
       stateOf (stop F (set_inputTapInstalled true
                          (set_recognitionRequest true
                             (set_recognizer (Some (localeID config)) s)))),
       [Log StartFailed; Log RuntimeStopped; OverlayDismiss])
  else
    (tt,
     set_recognizer (if recognizerCreated env then Some (localeID config) else None) s,
     [Log RecognizerUnavailable]).
Proof.
  run. destruct (recognizerCreated env); simp;
    destruct (recognizerAvailable env); simp; try reflexivity;
    destruct (engineStarts env); reflexivity.
Qed.

(** X3.  A start that does not succeed leaves nothing half started.  When
    the audio engine fails to start the runtime ends stopped; when no
    recognizer is available the start changes the recognizer and nothing
    else.  Neither sets a last activity or touches the cooldown. *)
Theorem start_failure_leaves_nothing_half_started
    (s : Runtime) (config : RuntimeConfig) (now : Date) (env : StartEnv) :
  recognizerCreated env && recognizerAvailable env && engineStarts env = false ->
  let r := start F config now env s in
  (recognizerCreated env && recognizerAvailable env = true ->
   isStopped (stateOf r) /\
   effectsOf r = [Log StartFailed; Log RuntimeStopped; OverlayDismiss])
  /\ (recognizerCreated env && recognizerAvailable env = false ->
      stateOf r =
        set_recognizer
          (if recognizerCreated env then Some (localeID config) else None) s /\
      effectsOf r = [Log RecognizerUnavailable])
  /\ lastHeard (stateOf r) = lastHeard s
  /\ cooldownUntil (stateOf r) = cooldownUntil s.
Proof.
  intros Hfail. cbv zeta. rewrite start_run.
  destruct (recognizerCreated env && recognizerAvailable env) eqn:Hrec.
  - cbn in Hfail. rewrite Hfail. unfold effectsOf.
    split; [intros _; split; [apply stop_isStopped | reflexivity]|].
    split; [discriminate|]. split; reflexivity.
  - unfold stateOf, effectsOf. cbn [fst snd].
    split; [discriminate|]. split; [auto|]. split; reflexivity.
Qed.

Lemma refresh_on (s : Runtime) (state : AppState) (now : Date) (env : StartEnv) :
  swabbleEnabled state = true ->
  refresh F true state true now env s =
  if option_eqb RuntimeConfig_eqb (Some (snapshotConfig state)) (currentConfig s)
     && isSome (recognitionTask s)
  then (tt, s, [])
  else
    (tt,
     stateOf (start F (snapshotConfig state) now env (stateOf (stop F s))),
     (effectsOf (stop F s)
      ++ effectsOf (start F (snapshotConfig state) now env (stateOf (stop F s))))%list).
Proof.
  intros Hen. unfold refresh. rewrite Hen. cbn [andb negb].
  unfold bind at 1. unfold gets at 1. unfold bind at 1. unfold gets at 1.
  destruct (option_eqb _ _ _ && _); [reflexivity|].
  unfold bind, stateOf, effectsOf.
  destruct (stop F s) as [[u s1] e1]. cbn [fst snd].
  destruct (start F (snapshotConfig state) now env s1) as [[[] s2] e2].
  reflexivity.
Qed.

(** X4.  [refresh] with the feature on, permissions granted and either a
    configuration that differs from the active one or no recognition task
    running stops the runtime and starts it with the new configuration.
    When that start succeeds the runtime listens with the new configuration:
    no capture is active (one in progress is dropped without a final
    presentation), the last activity is the time of the start and no
    cooldown is set. *)
Theorem refresh_restarts_on_change
    (s : Runtime) (state : AppState) (now : Date) (env : StartEnv) :
  swabbleEnabled state = true ->
  currentConfig s <> Some (snapshotConfig state) \/ recognitionTask s = None ->
  recognizerCreated env = true ->
  recognizerAvailable env = true ->
  engineStarts env = true ->
  let r := refresh F true state true now env s in
  effectsOf r = [Log RuntimeStopped; OverlayDismiss; Log RuntimeStarted] /\
  currentConfig (stateOf r) = Some (snapshotConfig state) /\
  recognitionTask (stateOf r) = Some (snapshotConfig state) /\
  audioEngineRunning (stateOf r) = true /\
  isCapturing (stateOf r) = false /\
  capturedTranscript (stateOf r) = "" /\
  lastHeard (stateOf r) = Some now /\
  cooldownUntil (stateOf r) = None.
Proof.
  intros Hen Hchange Hc Ha He. cbv zeta.
  assert (option_eqb RuntimeConfig_eqb (Some (snapshotConfig state)) (currentConfig s)
          && isSome (recognitionTask s) = false) as Hguard.
  { destruct Hchange as [Hneq | Hnone].
    - destruct (currentConfig s) as [c|] eqn:Hcur; [|reflexivity].
      cbn. destruct (RuntimeConfig_eqb (snapshotConfig state) c) eqn:Heq;
        [|reflexivity].
      apply RuntimeConfig_eqb_eq in Heq. congruence.
    - rewrite Hnone. apply andb_false_r. }
  rewrite (refresh_on s state now env Hen), Hguard.
  rewrite start_run, Hc, Ha, He, stop_eq.
  unfold stateOf, effectsOf. cbn. repeat split.
Qed.

(** *** What every reachable state satisfies *)

Lemma reachable_invariant (P : Runtime -> Prop) :
  P initial ->
  (forall (c : Call F) (s : Runtime), P s -> P (perform c s)) ->
  forall s, @Reachable F s -> P s.
Proof.
  intros Hinit Hstep s Hr. induction Hr as [|s c Hr IH]; auto.
Qed.

Lemma finalizeCapture_run (s : Runtime) config fwd now :
  isCapturing s = true ->
  stateOf (finalizeCapture F config fwd now s) =
  stateOf (stop F
             (set_cooldownUntil (Some (now + debounceAfterSend))
                (set_heardBeyondTrigger false
                   (set_lastHeard None
                      (set_captureStartedAt None
                         (set_capturedTranscript ""
                            (set_captureTask None
                               (set_isCapturing false s)))))))).
Proof.
  intros Hcap. destruct s as [rz ae it rr rt lh cs ct tr ic hb cu cc].
  cbn in Hcap. subst ic. run.
  destruct (Str.isEmpty _); simp; destruct cc; reflexivity.
Qed.

(** A turn of the monitor leaves the runtime as it is or finalizes. *)
Lemma monitorPoll_state_cases (s : Runtime) config fwd frame now finalizeNow :
  stateOf (monitorPoll F config fwd frame now finalizeNow s) = s \/
  (isCapturing s = true /\
   stateOf (monitorPoll F config fwd frame now finalizeNow s)
   = stateOf (finalizeCapture F config fwd finalizeNow s)).
Proof.
  destruct (isCapturing s) eqn:Hcap.
  - destruct (monitorPoll_cases s config fwd frame now finalizeNow Hcap)
      as (Hhard & Hsilent & Hrecent & Hnone & _).
    destruct (Z.le_gt_cases (hardStop frame) now) as [Hle | Hlt].
    + right. split; [reflexivity|]. destruct (Hhard Hle) as [-> _]. reflexivity.
    + destruct (lastHeard s) as [last|] eqn:Hlast.
      * destruct (Z.le_gt_cases silenceWindow (timeIntervalSince now last))
          as [Hs | Hr].
        -- destruct (Hsilent last Hlt eq_refl Hs) as [Hfin Hon].
           destruct (Z.le_gt_cases 2 (silentStrikes frame + 1)) as [H2 | H1].
           ++ right. split; [reflexivity|].
              destruct (Hfin H2) as [-> _]. reflexivity.
           ++ left. now rewrite (Hon H1).
        -- left. now rewrite (Hrecent last Hlt eq_refl Hr).
      * left. now rewrite (Hnone Hlt eq_refl).
  - left. unfold monitorPoll. unfold bind, gets. rewrite Hcap. reflexivity.
Qed.

Lemma handleRecognition_state_cases (s : Runtime) transcript error config
    now captureNow :
  let s' := stateOf (handleRecognition F transcript error config now captureNow s) in
  s' = s \/
  (exists text, s' = set_lastHeard (Some now) s /\ transcript = Some text) \/
  (exists text,
     isCapturing s = true /\ transcript = Some text /\
     s' = set_heardBeyondTrigger
            (heardBeyondTrigger s || textHasBeyondTriggerContent text)
            (set_capturedTranscript (trimmedAfterTrigger text (triggers config))
               (set_lastHeard (Some now) s))) \/
  (exists text,
     isCapturing s = false /\ transcript = Some text /\
     s' = stateOf (beginCapture F text config captureNow
                     (set_lastHeard (Some now) s))).
Proof.
  cbv zeta. destruct transcript as [text|].
  2:{ left. now rewrite handleRecognition_no_transcript. }
  destruct (isCapturing s) eqn:Hcap.
  - destruct (Str.isEmpty text) eqn:He.
    + apply StrFacts.isEmpty_true in He. subst text. left.
      now rewrite handleRecognition_capturing_empty.
    + right. right. left. exists text.
      rewrite handleRecognition_capturing by assumption. auto.
  - rewrite handleRecognition_listening by exact Hcap.
    destruct (matches text (triggers config)) eqn:Hm; cbn [andb].
    + assert (Str.isEmpty text = false) as He
        by (unfold matches in Hm; destruct (Str.isEmpty text); congruence).
      unfold heardAt. rewrite He.
      destruct (negb (cooldownActive s now)).
      * right. right. right. exists text. auto.
      * right. left. exists text. auto.
    + unfold heardAt, stateOf. cbn [fst snd].
      destruct (Str.isEmpty text); [left; reflexivity|].
      right. left. exists text. auto.
Qed.

Lemma lifecycle_stop (s : Runtime) : lifecycleCoherent (stateOf (stop F s)).
Proof. rewrite stop_eq. unfold lifecycleCoherent, stateOf. cbn. auto. Qed.

Lemma lifecycle_start (s : Runtime) config now env :
  lifecycleCoherent s -> lifecycleCoherent (stateOf (start F config now env s)).
Proof.
  intros Hinv. rewrite start_run.
  destruct (recognizerCreated env && recognizerAvailable env).
  - destruct (engineStarts env).
    + unfold lifecycleCoherent, stateOf. cbn. auto.
    + apply lifecycle_stop.
  - exact Hinv.
Qed.

Lemma lifecycle_perform (c : Call F) (s : Runtime) :
  lifecycleCoherent s -> lifecycleCoherent (perform c s).
Proof.
  intros Hinv. destruct c; cbn [perform].
  - unfold refresh.
    destruct (negb (voiceWakeSupported && swabbleEnabled state));
      [apply lifecycle_stop|].
    destruct (negb permissionsGranted); [apply lifecycle_stop|].
    unfold bind at 1. unfold gets at 1. unfold bind at 1. unfold gets at 1.
    destruct (option_eqb _ _ _ && _); [exact Hinv|].
    unfold bind, stateOf. destruct (stop F s) as [[u s1] e1] eqn:Hstop.
    pose proof (lifecycle_stop s) as H1. rewrite Hstop in H1.
    unfold stateOf in H1. cbn [fst snd] in H1.
    pose proof (lifecycle_start s1 (snapshotConfig state) now env H1) as H2.
    destruct (start F (snapshotConfig state) now env s1) as [[v s2] e2].
    exact H2.
  - now apply lifecycle_start.
  - destruct (handleRecognition_state_cases s transcript error config now captureNow)
      as [-> | [(t & -> & _) | [(t & _ & _ & ->) | (t & _ & _ & ->)]]];
      try exact Hinv; try rewrite beginCapture_eq;
      unfold lifecycleCoherent, stateOf in *; cbn; exact Hinv.
  - destruct (monitorPoll_state_cases s config forwardConfig frame now finalizeNow)
      as [-> | [Hcap ->]]; [exact Hinv|].
    rewrite finalizeCapture_run by exact Hcap. apply lifecycle_stop.
Qed.

(** X5.  In every state the runtime can reach, the recognition task, the
    recognition request, the tap on the input node and the audio engine are
    all up or all down, and the configuration that the callback of the task
    carries is the active configuration. *)
Theorem reachable_lifecycle_coherent (s : Runtime) :
  @Reachable F s ->
  recognitionTask s = currentConfig s /\
  recognitionRequest s = isSome (recognitionTask s) /\
  inputTapInstalled s = isSome (recognitionTask s) /\
  audioEngineRunning s = isSome (recognitionTask s).
Proof.
  apply (reachable_invariant lifecycleCoherent).
  - unfold lifecycleCoherent. cbn. auto.
  - apply lifecycle_perform.
Qed.





End Lifecycle.

(** ** Callbacks, finalization and the monitor at work *)

Section Capture.

Context {F : Type}.

(** X7.  A callback that does not begin a capture on a runtime that is not
    capturing, because its transcript matches no trigger or because a
    cooldown is active, changes at most the last activity: a transcript
    that is not empty sets it to the time of the callback, also when the
    cooldown rejects a match, and an empty one changes nothing.  Nothing
    is sent but the log entry of an error. *)
Theorem handleRecognition_ignored
    (s : Runtime) (text : string) (error : option string)
    (config : RuntimeConfig) (now captureNow : Date) :
  isCapturing s = false ->
  matches text (triggers config) = false \/ cooldownActive s now = true ->
  handleRecognition F (Some text) error config now captureNow s =
  (tt, (if Str.isEmpty text then s else set_lastHeard (Some now) s),
   logOf error).
Proof.
  intros Hcap Hwhy. rewrite handleRecognition_listening by exact Hcap.
  destruct Hwhy as [-> | ->]; [reflexivity|].
  rewrite andb_false_r. reflexivity.
Qed.

(** X8.  A callback with an empty transcript changes nothing and begins
    nothing, whether a capture is active or not. *)
Theorem handleRecognition_empty_transcript
    (s : Runtime) (error : option string) (config : RuntimeConfig)
    (now captureNow : Date) :
  handleRecognition F (Some "") error config now captureNow s =
  (tt, s, logOf error).
Proof.
  destruct (isCapturing s) eqn:Hcap.
  - now apply handleRecognition_capturing_empty.
  - rewrite handleRecognition_listening by exact Hcap. reflexivity.
Qed.


(** *** Updates during a capture *)

Lemma feed_snoc (config : RuntimeConfig) (before : list Update) (u : Update)
    (s : Runtime) :
  stateOf (feed F config (before ++ [u]) s) =
  stateOf (handleRecognition F (Some (updTranscript u)) (updError u) config
             (updNow u) (updNow u) (stateOf (feed F config before s))).
Proof.
  rewrite feed_app, feed_cons. reflexivity.
Qed.

(** Updates of any kind keep an active capture active and its start. *)
Lemma feed_stays_capturing (config : RuntimeConfig) (updates : list Update)
    (s : Runtime) :
  isCapturing s = true ->
  isCapturing (stateOf (feed F config updates s)) = true /\
  captureStartedAt (stateOf (feed F config updates s)) = captureStartedAt s /\
  currentConfig (stateOf (feed F config updates s)) = currentConfig s.
Proof.
  revert s; induction updates as [|u rest IH]; intros s Hcap; [auto|].
  rewrite feed_cons.
  destruct (Str.isEmpty (updTranscript u)) eqn:He.
  - apply StrFacts.isEmpty_true in He. rewrite He.
    rewrite handleRecognition_capturing_empty by exact Hcap.
    apply IH. exact Hcap.
  - rewrite handleRecognition_capturing by assumption.
    unfold stateOf at 2 4 6. cbn [fst snd].
    match goal with
    | |- context [feed F config rest ?x] =>
        destruct (IH x) as (H1 & H2 & H3); [exact Hcap|]
    end.
    rewrite H1, H2, H3. auto.
Qed.

(** The session after updates during a capture, by the last update when
    it is not empty. *)
Lemma feed_last_update
    (s : Runtime) (config : RuntimeConfig) (before : list Update) (u : Update) :
  isCapturing s = true ->
  updTranscript u <> "" ->
  let current := stateOf (feed F config (before ++ [u]) s) in
  capturedTranscript current =
    trimmedAfterTrigger (updTranscript u) (triggers config) /\
  lastHeard current = Some (updNow u) /\
  captureStartedAt current = captureStartedAt s /\
  isCapturing current = true.
Proof.
  intros Hcap Hne. cbv zeta. rewrite feed_snoc.
  destruct (feed_stays_capturing config before s Hcap) as (H1 & H2 & _).
  apply StrFacts.isEmpty_false in Hne.
  rewrite handleRecognition_capturing by assumption.
  unfold stateOf at 1 3 5 7. cbn [fst snd]. cbn. auto.
Qed.


(** *** Runs of the monitor *)

Lemma monitorLoop_cons (config : RuntimeConfig) (fwd : F) (frame : MonitorFrame)
    (t : Tick) (rest : list Tick) (s : Runtime) :
  let fed := stateOf (feed F config (arrivals t) s) in
  let polled := monitorPoll F config fwd frame (pollNow t) (pollFinalizeNow t) fed in
  valueOf (monitorLoop F config fwd frame (t :: rest) s) =
    match valueOf polled with
    | None => None
    | Some frame' => valueOf (monitorLoop F config fwd frame' rest (stateOf polled))
    end /\
  stateOf (monitorLoop F config fwd frame (t :: rest) s) =
    match valueOf polled with
    | None => stateOf polled
    | Some frame' => stateOf (monitorLoop F config fwd frame' rest (stateOf polled))
    end.
Proof.
  cbv zeta. cbn [monitorLoop]. unfold bind, stateOf, valueOf.
  destruct (feed F config (arrivals t) s) as [[u s1] e1]. cbn [fst snd].
  destruct (monitorPoll F config fwd frame (pollNow t) (pollFinalizeNow t) s1)
    as [[[frame'|] s2] e2]; cbn [fst snd].
  - destruct (monitorLoop F config fwd frame' rest s2) as [[v s3] e3].
    cbn. auto.
  - auto.
Qed.

(** What a turn on an active capture comes to. *)
Lemma monitorPoll_outcome (s : Runtime) config (fwd : F) frame now finalizeNow :
  isCapturing s = true ->
  let r := monitorPoll F config fwd frame now finalizeNow s in
  (valueOf r = None /\ isCapturing (stateOf r) = false) \/
  (exists frame',
     valueOf r = Some frame' /\ hardStop frame' = hardStop frame /\
     stateOf r = s /\ now < hardStop frame).
Proof.
  intros Hcap. cbv zeta.
  destruct (monitorPoll_cases s config fwd frame now finalizeNow Hcap)
    as (Hhard & Hsilent & Hrecent & Hnone & _).
  destruct (Z.le_gt_cases (hardStop frame) now) as [Hle | Hlt].
  - left. destruct (Hhard Hle) as [Hr Hidle]. split; [|exact Hidle].
    rewrite Hr. reflexivity.
  - destruct (lastHeard s) as [last|] eqn:Hlast.
    + destruct (Z.le_gt_cases silenceWindow (timeIntervalSince now last))
        as [Hs | Hr].
      * destruct (Hsilent last Hlt eq_refl Hs) as [Hfin Hon].
        destruct (Z.le_gt_cases 2 (silentStrikes frame + 1)) as [H2 | H1].
        -- left. destruct (Hfin H2) as [Hr Hidle]. split; [|exact Hidle].
           rewrite Hr. reflexivity.
        -- right. rewrite (Hon H1). eexists. cbn. auto.
      * right. rewrite (Hrecent last Hlt eq_refl Hr). eexists. cbn. auto.
    + right. rewrite (Hnone Hlt eq_refl). eexists. cbn. auto.
Qed.

Lemma monitorLoop_outcome (config : RuntimeConfig) (fwd : F) (ticks : list Tick) :
  forall (frame : MonitorFrame) (s : Runtime),
  isCapturing s = true ->
  let r := monitorLoop F config fwd frame ticks s in
  (valueOf r = None /\ isCapturing (stateOf r) = false) \/
  (exists frame',
     valueOf r = Some frame' /\ hardStop frame' = hardStop frame /\
     isCapturing (stateOf r) = true /\
     Forall (fun t => pollNow t < hardStop frame) ticks).
Proof.
  induction ticks as [|t rest IH]; intros frame s Hcap; cbv zeta.
  - right. exists frame. cbn. auto.
  - destruct (monitorLoop_cons config fwd frame t rest s) as [Hv Hs].
    rewrite Hv, Hs.
    destruct (feed_stays_capturing config (arrivals t) s Hcap) as (Hfed & _).
    destruct (monitorPoll_outcome _ config fwd frame (pollNow t)
                (pollFinalizeNow t) Hfed)
      as [[Hnone Hidle] | (frame' & Hsome & Hhs & Hsame & Hlt)].
    + rewrite Hnone. left. auto.
    + rewrite Hsome, Hsame.
      destruct (IH frame' _ Hfed) as [Hdone | (f2 & H1 & H2 & H3 & H4)].
      * left. exact Hdone.
      * right. exists f2. split; [exact H1|]. split; [congruence|].
        split; [exact H3|]. constructor; [exact Hlt|].
        rewrite <- Hhs. exact H4.
Qed.

(** X11.  The hard stop bounds a capture.  When the monitor of a capture
    that began at [started] takes a turn at or after [started] plus
    8000 ms, [monitorCapture] has returned by the end of that turn and no
    capture is active, whatever transcripts arrived between its turns. *)
Theorem monitorCapture_hard_stop
    (s : Runtime) (config : RuntimeConfig) (fwd : F) (started entryNow : Date)
    (ticks : list Tick) :
  isCapturing s = true ->
  captureStartedAt s = Some started ->
  Exists (fun t => started + 8000 <= pollNow t) ticks ->
  let r := monitorCapture F config fwd entryNow ticks s in
  valueOf r = None /\ isCapturing (stateOf r) = false.
Proof.
  intros Hcap Hstart Hex. cbv zeta.
  assert (monitorCapture F config fwd entryNow ticks s =
          monitorLoop F config fwd
            {| hardStop := started + captureHardStop; silentStrikes := 0 |}
            ticks s) as ->.
  { unfold monitorCapture, bind. rewrite (monitorEnter_frame s started entryNow Hstart).
    destruct (monitorLoop F config fwd _ ticks s) as [[v s'] e]. reflexivity. }
  destruct (monitorLoop_outcome config fwd ticks
              {| hardStop := started + captureHardStop; silentStrikes := 0 |}
              s Hcap) as [Hdone | (f & _ & _ & _ & Hall)]; [exact Hdone|].
  exfalso. apply Exists_exists in Hex. destruct Hex as (t & Hin & Hle).
  rewrite Forall_forall in Hall. specialize (Hall t Hin). cbn in Hall.
  unfold captureHardStop in Hall. lia.
Qed.

Lemma monitorLoop_returns (config : RuntimeConfig) (fwd : F)
    (frame : MonitorFrame) (t : Tick) (rest : list Tick) (s : Runtime) :
  let polled := monitorPoll F config fwd frame (pollNow t) (pollFinalizeNow t)
                  (stateOf (feed F config (arrivals t) s)) in
  valueOf polled = None ->
  valueOf (monitorLoop F config fwd frame (t :: rest) s) = None /\
  stateOf (monitorLoop F config fwd frame (t :: rest) s) = stateOf polled.
Proof.
  cbv zeta. intros Hnone.
  destruct (monitorLoop_cons config fwd frame t rest s) as [Hv Hs].
  rewrite Hv, Hs, Hnone. auto.
Qed.

Lemma monitorLoop_continues (config : RuntimeConfig) (fwd : F)
    (frame frame' : MonitorFrame) (t : Tick) (rest : list Tick) (s : Runtime) :
  let polled := monitorPoll F config fwd frame (pollNow t) (pollFinalizeNow t)
                  (stateOf (feed F config (arrivals t) s)) in
  valueOf polled = Some frame' ->
  valueOf (monitorLoop F config fwd frame (t :: rest) s) =
    valueOf (monitorLoop F config fwd frame' rest (stateOf polled)) /\
  stateOf (monitorLoop F config fwd frame (t :: rest) s) =
    stateOf (monitorLoop F config fwd frame' rest (stateOf polled)).
Proof.
  cbv zeta. intros Hsome.
  destruct (monitorLoop_cons config fwd frame t rest s) as [Hv Hs].
  rewrite Hv, Hs, Hsome. auto.
Qed.

(** A turn that finds the last activity at least [silenceWindow] old. *)
Lemma monitorPoll_silent (s : Runtime) config (fwd : F) frame now finalizeNow last :
  isCapturing s = true ->
  lastHeard s = Some last ->
  silenceWindow <= timeIntervalSince now last ->
  let r := monitorPoll F config fwd frame now finalizeNow s in
  (valueOf r = None /\ isCapturing (stateOf r) = false) \/
  (silentStrikes frame + 1 < 2 /\
   valueOf r = Some {| hardStop := hardStop frame;
                       silentStrikes := silentStrikes frame + 1 |} /\
   stateOf r = s).
Proof.
  intros Hcap Hlast Hsilent. cbv zeta.
  destruct (monitorPoll_cases s config fwd frame now finalizeNow Hcap)
    as (Hhard & Hsil & _).
  destruct (Z.le_gt_cases (hardStop frame) now) as [Hle | Hlt].
  - left. destruct (Hhard Hle) as [Hr Hidle]. split; [|exact Hidle].
    rewrite Hr. reflexivity.
  - destruct (Hsil last Hlt Hlast Hsilent) as [Hfin Hon].
    destruct (Z.le_gt_cases 2 (silentStrikes frame + 1)) as [H2 | H1].
    + left. destruct (Hfin H2) as [Hr Hidle]. split; [|exact Hidle].
      rewrite Hr. reflexivity.
    + right. rewrite (Hon H1). cbn. auto.
Qed.

(** A turn before the hard stop that finds the last activity recent. *)
Lemma monitorPoll_recent (s : Runtime) config (fwd : F) frame now finalizeNow last :
  isCapturing s = true ->
  now < hardStop frame ->
  lastHeard s = Some last ->
  timeIntervalSince now last < silenceWindow ->
  let r := monitorPoll F config fwd frame now finalizeNow s in
  valueOf r = Some {| hardStop := hardStop frame; silentStrikes := 0 |} /\
  stateOf r = s.
Proof.
  intros Hcap Hlt Hlast Hrecent. cbv zeta.
  destruct (monitorPoll_cases s config fwd frame now finalizeNow Hcap)
    as (_ & _ & Hrec & _).
  rewrite (Hrec last Hlt Hlast Hrecent). cbn. auto.
Qed.

(** X12.  Silence ends a capture at the second turn.  When the first two
    turns of the monitor find the last activity at least 1000 ms old and no
    transcript arrives before them, [monitorCapture] has returned after the
    second and no capture is active.  When instead a transcript that is not
    empty arrives between the two turns, less than 1000 ms before the
    second, the capture is still active after the second turn and the
    monitor counts no strike. *)
Theorem monitorCapture_silence
    (s : Runtime) (config : RuntimeConfig) (fwd : F) (started last entryNow : Date)
    (first second : Tick) (rest : list Tick) :
  isCapturing s = true ->
  captureStartedAt s = Some started ->
  lastHeard s = Some last ->
  arrivals first = [] ->
  silenceWindow <= timeIntervalSince (pollNow first) last ->
  (arrivals second = [] ->
   silenceWindow <= timeIntervalSince (pollNow second) last ->
   let r := monitorCapture F config fwd entryNow (first :: second :: rest) s in
   valueOf r = None /\ isCapturing (stateOf r) = false)
  /\ (forall u,
        arrivals second = [u] ->
        updTranscript u <> "" ->
        pollNow first < started + 8000 ->
        pollNow second < started + 8000 ->
        timeIntervalSince (pollNow second) (updNow u) < silenceWindow ->
        let r := monitorCapture F config fwd entryNow [first; second] s in
        valueOf r = Some {| hardStop := started + 8000; silentStrikes := 0 |} /\
        isCapturing (stateOf r) = true).
Proof.
  intros Hcap Hstart Hlast Hquiet1 Hsilent1.
  assert (forall ticks,
            monitorCapture F config fwd entryNow ticks s =
            monitorLoop F config fwd
              {| hardStop := started + captureHardStop; silentStrikes := 0 |}
              ticks s) as Henter.
  { intros ticks. unfold monitorCapture, bind.
    rewrite (monitorEnter_frame s started entryNow Hstart).
    destruct (monitorLoop F config fwd _ ticks s) as [[v s'] e]. reflexivity. }
  set (frame0 := {| hardStop := started + captureHardStop; silentStrikes := 0 |}) in *.
  set (frame1 := {| hardStop := hardStop frame0;
                    silentStrikes := silentStrikes frame0 + 1 |}).
  destruct first as [arrivals1 now1 finalizeNow1].
  destruct second as [arrivals2 now2 finalizeNow2].
  cbn [arrivals pollNow pollFinalizeNow] in *. subst arrivals1.
  pose proof (monitorPoll_silent s config fwd frame0 now1 finalizeNow1 last
                Hcap Hlast Hsilent1) as Hfirst.
  cbv zeta in Hfirst.
  split.
  - intros Hquiet2 Hsilent2. subst arrivals2. cbv zeta. rewrite Henter.
    destruct Hfirst as [[Hnone Hidle] | (_ & Hsome & Hsame)].
    + destruct (monitorLoop_returns config fwd frame0
                  {| arrivals := []; pollNow := now1; pollFinalizeNow := finalizeNow1 |}
                  ({| arrivals := []; pollNow := now2; pollFinalizeNow := finalizeNow2 |}
                   :: rest) s Hnone) as [Hv Hs].
      rewrite Hv, Hs. auto.
    + destruct (monitorLoop_continues config fwd frame0 frame1
                  {| arrivals := []; pollNow := now1; pollFinalizeNow := finalizeNow1 |}
                  ({| arrivals := []; pollNow := now2; pollFinalizeNow := finalizeNow2 |}
                   :: rest) s Hsome) as [Hv Hs].
      rewrite Hv, Hs. cbn [arrivals pollNow pollFinalizeNow feed].
      change (stateOf (ret F tt s)) with s. rewrite Hsame.
      pose proof (monitorPoll_silent s config fwd frame1 now2 finalizeNow2 last
                    Hcap Hlast Hsilent2) as Hsecond.
      cbv zeta in Hsecond.
      destruct Hsecond as [[Hnone Hidle] | (Hlt & _)].
      * destruct (monitorLoop_returns config fwd frame1
                    {| arrivals := []; pollNow := now2; pollFinalizeNow := finalizeNow2 |}
                    rest s Hnone) as [Hv2 Hs2].
        rewrite Hv2, Hs2. auto.
      * cbn in Hlt. lia.
  - intros u Harr Hne Hb1 Hb2 Hrecent. subst arrivals2. cbv zeta. rewrite Henter.
    destruct Hfirst as [[Hnone Hidle] | (_ & Hsome & Hsame)].
    + exfalso.
      destruct (monitorPoll_cases s config fwd frame0 now1 finalizeNow1 Hcap)
        as (_ & Hsil & _).
      assert (now1 < hardStop frame0) as Hlt
        by (cbn; unfold captureHardStop; lia).
      destruct (Hsil last Hlt Hlast Hsilent1) as [_ Hon].
      rewrite (Hon ltac:(cbn; lia)) in Hnone. discriminate.
    + destruct (monitorLoop_continues config fwd frame0 frame1
                  {| arrivals := []; pollNow := now1; pollFinalizeNow := finalizeNow1 |}
                  [{| arrivals := [u]; pollNow := now2; pollFinalizeNow := finalizeNow2 |}]
                  s Hsome) as [Hv Hs].
      rewrite Hv, Hs. cbn [arrivals pollNow pollFinalizeNow].
      change (stateOf (feed F config [] s)) with s. rewrite Hsame.
      set (fed := stateOf (feed F config [u] s)).
      assert (isCapturing fed = true /\ lastHeard fed = Some (updNow u))
        as [Hfc Hfl].
      { destruct (feed_last_update s config [] u Hcap Hne)
          as (_ & H2 & _ & H4). auto. }
      assert (now2 < hardStop frame1) as Hlt2
        by (cbn; unfold captureHardStop; lia).
      destruct (monitorPoll_recent fed config fwd frame1 now2 finalizeNow2
                  (updNow u) Hfc Hlt2 Hfl Hrecent) as [Hv2 Hs2].
      destruct (monitorLoop_continues config fwd frame1 _
                  {| arrivals := [u]; pollNow := now2; pollFinalizeNow := finalizeNow2 |}
                  [] s Hv2) as [Hv3 Hs3].
      rewrite Hv3, Hs3. cbn [arrivals pollNow pollFinalizeNow].
      fold fed. rewrite Hs2. cbn. auto.
Qed.

End Capture.

(** ** The matcher and the word count: more properties *)

Module MatcherMore.
Import Str StrFacts Matcher.

(** *** Words *)

Lemma countWords_true_positive (s : string) : (1 <= countWords true s)%nat.
Proof.
  induction s as [|c r IH]; simpl; [lia|]. destruct (isWhitespace c); lia.
Qed.

Lemma countWords_prepend (pre x : string) (inWord : bool) :
  (countWords false x <= countWords inWord (pre ++ x))%nat.
Proof.
  revert inWord; induction pre as [|c p IH]; intros inWord; simpl.
  - destruct inWord; [apply countWords_inWord | lia].
  - pose proof (IH false). pose proof (IH true).
    destruct (isWhitespace c); destruct inWord; lia.
Qed.

Lemma countWords_append (x post : string) (inWord : bool) :
  (countWords inWord x <= countWords inWord (x ++ post))%nat.
Proof.
  revert inWord; induction x as [|c r IH]; intros inWord; simpl.
  - destruct inWord; [apply countWords_true_positive | lia].
  - pose proof (IH false). pose proof (IH true).
    destruct (isWhitespace c); destruct inWord; lia.
Qed.

Lemma countWords_noWhitespace (w : string) :
  noWhitespace w = true -> countWords true w = 1%nat.
Proof.
  induction w as [|c r IH]; simpl; [reflexivity|].
  destruct (isWhitespace c); simpl; [discriminate | exact IH].
Qed.

Lemma countWords_word_then (w rest : string) :
  noWhitespace w = true ->
  countWords true (w ++ rest) = countWords true rest.
Proof.
  induction w as [|c r IH]; simpl; [reflexivity|].
  destruct (isWhitespace c); simpl; [discriminate | exact IH].
Qed.

Lemma countWords_dropTrailing_eq (inWord : bool) (s : string) :
  countWords inWord (dropTrailingWhitespace s) = countWords inWord s.
Proof.
  revert inWord; induction s as [|c r IH]; intros inWord; simpl; [reflexivity|].
  destruct (isWhitespace c) eqn:Hc; simpl.
  - destruct (isEmpty (dropTrailingWhitespace r)) eqn:He; simpl.
    + apply isEmpty_true in He. pose proof (IH false) as H.
      rewrite He in H. simpl in H. rewrite <- H. reflexivity.
    + rewrite Hc, IH. reflexivity.
  - rewrite Hc. apply IH.
Qed.

(** X13.  Whether a text has content beyond the trigger depends on its words
    alone.  Whitespace around the text does not matter; a text without
    whitespace inside, one word or none, has none; two words with
    whitespace between them, whatever stands before and after, have. *)
Theorem textHasBeyondTriggerContent_by_words (text : string) :
  textHasBeyondTriggerContent (trimmingWhitespace text)
    = textHasBeyondTriggerContent text
  /\ (noWhitespace (trimmingWhitespace text) = true ->
      textHasBeyondTriggerContent text = false)
  /\ (forall pre w1 sep w2 post c1 c2 c3,
        text = pre ++ String c1 w1 ++ String c2 sep ++ String c3 w2 ++ post ->
        isWhitespace c1 = false -> isWhitespace c2 = true ->
        isWhitespace c3 = false ->
        textHasBeyondTriggerContent text = true).
Proof.
  assert (countWords false (trimmingWhitespace text) = countWords false text)
    as Htrim.
  { unfold trimmingWhitespace.
    now rewrite countWords_dropTrailing_eq, countWords_dropLeading. }
  rewrite !Matcher.textHasBeyondTriggerContent_words. split; [now rewrite Htrim|].
  split.
  - intros Hnw. rewrite <- Htrim. apply Nat.ltb_ge.
    destruct (trimmingWhitespace text) as [|c r]; simpl; [lia|].
    simpl in Hnw. destruct (isWhitespace c); [discriminate|].
    simpl in Hnw. rewrite (countWords_noWhitespace r Hnw). lia.
  - intros pre w1 sep w2 post c1 c2 c3 -> H1 H2 H3. apply Nat.ltb_lt.
    set (tail := String c2 sep ++ String c3 w2 ++ post).
    assert (1 <= countWords false tail)%nat as Hfalse.
    { unfold tail. simpl. rewrite H2.
      pose proof (countWords_prepend sep (String c3 w2 ++ post) false) as Hsep.
      simpl in Hsep. rewrite H3 in Hsep.
      pose proof (countWords_true_positive (w2 ++ post)). lia. }
    assert (2 <= countWords true tail)%nat as Htrue.
    { unfold tail in *. simpl in *. rewrite H2 in *. lia. }
    pose proof (countWords_prepend pre (String c1 w1 ++ tail) false) as Hpre.
    assert (2 <= countWords false (String c1 w1 ++ tail))%nat; [|lia].
    simpl. rewrite H1. clear Hpre Htrim.
    induction w1 as [|d w1 IH]; simpl; [exact Htrue|].
    destruct (isWhitespace d); [|exact IH].
    pose proof (countWords_prepend w1 tail false). lia.
Qed.

End MatcherMore.

(** ** Themes *)

Module ThemeFacts.
Import Js Theme.

Lemma getProperty_inherited {A : Type} (table : list (string * A)) (k m : string) :
  getProperty table k = Inherited m ->
  m = k /\ ownProperty table k = None /\ isPrototypeKey k = true.
Proof.
  unfold getProperty. destruct (ownProperty table k); [discriminate|].
  destruct (isPrototypeKey k); [|discriminate].
  intros H. injection H as <-. auto.
Qed.

(** No theme and no legacy name is the name of a member of
    [Object.prototype]. *)
Lemma prototypeKey_not_theme (mode : string) :
  isPrototypeKey mode = true ->
  validTheme mode = None /\ ownProperty LEGACY_MAP mode = None.
Proof.
  unfold isPrototypeKey, objectPrototypeKeys. cbn [existsb].
  rewrite !orb_true_iff, !String.eqb_eq.
  intros H. repeat (destruct H as [H | H]; [subst mode; split; reflexivity|]).
  discriminate.
Qed.

(** X14.  [resolveTheme] returns every valid theme as it is, so that
    resolving the name of a theme it returned gives that theme again.  For
    a name that is neither a theme nor a legacy name it returns [dark],
    unless the name is that of a member of [Object.prototype]: then, and
    only then, it returns that member, which is no theme. *)
Theorem resolveTheme_spec (mode : string) :
  (forall t, resolveTheme (name t) = Mode t)
  /\ (forall t, resolveTheme mode = Mode t -> resolveTheme (name t) = Mode t)
  /\ (isPrototypeKey mode = false -> exists t, resolveTheme mode = Mode t)
  /\ (validTheme mode = None -> ownProperty LEGACY_MAP mode = None ->
      isPrototypeKey mode = false -> resolveTheme mode = Mode dark)
  /\ (forall member, resolveTheme mode = Member member <->
        member = mode /\ isPrototypeKey mode = true).
Proof.
  assert (forall t, resolveTheme (name t) = Mode t) as Hvalid
    by (intros []; reflexivity).
  split; [exact Hvalid|]. split; [intros t _; apply Hvalid|].
  unfold resolveTheme, getProperty. split; [|split].
  - intros Hproto. rewrite Hproto.
    destruct (validTheme mode) as [t|]; [now exists t|].
    destruct (ownProperty LEGACY_MAP mode) as [t|]; [now exists t|].
    now exists dark.
  - intros -> -> ->. reflexivity.
  - intros member. split.
    + destruct (validTheme mode); [discriminate|].
      destruct (ownProperty LEGACY_MAP mode); [discriminate|].
      destruct (isPrototypeKey mode); [|discriminate].
      intros H. injection H as <-. auto.
    + intros [-> Hproto].
      destruct (prototypeKey_not_theme mode Hproto) as [-> ->].
      now rewrite Hproto.
Qed.

(** X15.  Every theme has its entry in [THEME_OPTIONS], one entry only, so
    the lookup of [renderThemeToggle] finds an option for every theme, and
    in particular for whatever theme [resolveTheme] returns. *)
Theorem themeOption_total (t : ThemeMode) :
  (exists o, themeOption t = Some o /\ id o = t /\ In o THEME_OPTIONS)
  /\ NoDup (map id THEME_OPTIONS)
  /\ (forall mode, resolveTheme mode = Mode t -> themeOption t <> None).
Proof.
  split; [|split].
  - destruct t; eexists; (split; [reflexivity|]); split; try reflexivity;
      cbn; auto 10.
  - cbn. repeat constructor; cbn; intuition discriminate.
  - intros mode _. destruct t; discriminate.
Qed.

End ThemeFacts.

(** ** Session keys and session names *)

Module SessionFacts.
Import Str StrFacts Js Session.

(** *** Trimming *)

Lemma trimEnd_idempotent (s : string) : trimEnd (trimEnd s) = trimEnd s.
Proof.
  induction s as [|c r IH]; simpl; [reflexivity|].
  destruct (isWhiteSpace c && isEmpty (trimEnd r)) eqn:H; simpl; [reflexivity|].
  now rewrite IH, H.
Qed.

Lemma trimStart_head (s : string) :
  match trimStart s with
  | String c _ => isWhiteSpace c = false
  | EmptyString => True
  end.
Proof.
  induction s as [|c r IH]; simpl; [exact I|].
  destruct (isWhiteSpace c) eqn:H; [exact IH | exact H].
Qed.

Lemma trim_head (s : string) :
  match trim s with
  | String c _ => isWhiteSpace c = false
  | EmptyString => True
  end.
Proof.
  unfold trim. pose proof (trimStart_head s) as H.
  destruct (trimStart s) as [|c r]; simpl; [exact I|].
  rewrite H. simpl. exact H.
Qed.

Lemma trim_idempotent (s : string) : trim (trim s) = trim s.
Proof.
  unfold trim at 1. pose proof (trim_head s) as H.
  destruct (trim s) as [|c r] eqn:Ht; [reflexivity|].
  simpl trimStart. rewrite H. rewrite <- Ht. unfold trim.
  apply trimEnd_idempotent.
Qed.

(** *** Colons *)

Lemma splitColon_found (s seg rest : string) :
  splitColon s = (seg, Some rest) ->
  s = seg ++ String ":" rest /\ hasColon seg = false.
Proof.
  revert seg; induction s as [|c r IH]; intros seg; simpl; [discriminate|].
  destruct (Ascii.eqb c ":") eqn:Hc.
  - apply Ascii.eqb_eq in Hc. subst c. intros H. injection H as <- <-. auto.
  - destruct (splitColon r) as [seg' rest'].
    intros H. injection H as <- ->.
    destruct (IH seg' eq_refl) as [-> Hn]. simpl. rewrite Hc. auto.
Qed.

Lemma splitColon_segment (seg rest : string) :
  hasColon seg = false ->
  splitColon (seg ++ String ":" rest) = (seg, Some rest).
Proof.
  induction seg as [|c seg IH]; simpl; [reflexivity|].
  destruct (Ascii.eqb c ":"); simpl; [discriminate|].
  intros Hn. now rewrite (IH Hn).
Qed.

Lemma splitColon_some (s seg rest : string) :
  splitColon s = (seg, Some rest) <->
  s = seg ++ String ":" rest /\ hasColon seg = false.
Proof.
  split; [apply splitColon_found|].
  intros [-> Hn]. now apply splitColon_segment.
Qed.

Lemma splitColon_none (s seg : string) :
  splitColon s = (seg, None) -> hasColon s = false.
Proof.
  revert seg; induction s as [|c r IH]; intros seg; simpl; [reflexivity|].
  destruct (Ascii.eqb c ":"); [discriminate|].
  destruct (splitColon r) as [seg' [rest'|]]; [discriminate|].
  intros _. simpl. now apply (IH seg').
Qed.

Lemma hasColon_append (a b : string) :
  hasColon (a ++ b) = hasColon a || hasColon b.
Proof.
  induction a as [|c r IH]; simpl; [reflexivity|].
  now rewrite IH, orb_assoc.
Qed.

(** The keys that [matchAgentKey] matches, and what it yields for them. *)
Lemma matchAgentKey_iff (kind key channel identifier : string) :
  matchAgentKey kind key = Some (channel, identifier) <->
  exists agent,
    key = "agent:" ++ agent ++ ":" ++ channel ++ ":" ++ kind ++ ":" ++ identifier /\
    agent <> "" /\ hasColon agent = false /\
    channel <> "" /\ hasColon channel = false /\
    identifier <> "" /\ hasLineTerminator identifier = false.
Proof.
  unfold matchAgentKey, startsWith. split.
  - destruct (hasPrefix "agent:" key) eqn:Hp; [|discriminate].
    apply hasPrefix_spec in Hp. destruct Hp as [r1 ->].
    change 6%nat with (String.length "agent:"). rewrite suffixFrom_append.
    destruct (splitColon r1) as [agent [r2|]] eqn:H1; [|discriminate].
    apply splitColon_some in H1. destruct H1 as [-> Hna].
    destruct (isEmpty agent) eqn:Hea; [discriminate|].
    destruct (splitColon r2) as [ch [r3|]] eqn:H2; [|discriminate].
    apply splitColon_some in H2. destruct H2 as [-> Hnc].
    destruct (isEmpty ch) eqn:Hec; [discriminate|].
    destruct (hasPrefix (kind ++ ":") r3) eqn:Hk; [|discriminate].
    apply hasPrefix_spec in Hk. destruct Hk as [ident ->].
    replace (String.length kind + 1)%nat with (String.length (kind ++ ":"))
      by (rewrite length_append; reflexivity).
    rewrite suffixFrom_append.
    destruct (isEmpty ident) eqn:Hei; [discriminate|].
    destruct (hasLineTerminator ident) eqn:Hl; [discriminate|].
    intros H. injection H as <- <-. exists agent.
    apply isEmpty_false in Hea, Hec, Hei.
    repeat split; auto.
    simpl. rewrite !append_assoc. reflexivity.
  - intros (agent & -> & Hea & Hna & Hec & Hnc & Hei & Hl).
    apply isEmpty_false in Hea, Hec, Hei.
    assert (hasPrefix "agent:"
              ("agent:" ++ agent ++ ":" ++ channel ++ ":" ++ kind ++ ":" ++ identifier)
            = true) as ->
      by (apply hasPrefix_spec; eexists; reflexivity).
    change 6%nat with (String.length "agent:"). rewrite suffixFrom_append.
    assert (splitColon (agent ++ ":" ++ channel ++ ":" ++ kind ++ ":" ++ identifier)
            = (agent, Some (channel ++ ":" ++ kind ++ ":" ++ identifier))) as ->
      by (apply splitColon_some; auto).
    rewrite Hea.
    assert (splitColon (channel ++ ":" ++ kind ++ ":" ++ identifier)
            = (channel, Some (kind ++ ":" ++ identifier))) as ->
      by (apply splitColon_some; auto).
    rewrite Hec.
    assert (hasPrefix (kind ++ ":") (kind ++ ":" ++ identifier) = true) as ->.
    { apply hasPrefix_spec. exists identifier. now rewrite append_assoc. }
    replace (String.length kind + 1)%nat with (String.length (kind ++ ":"))
      by (rewrite length_append; reflexivity).
    replace (kind ++ ":" ++ identifier) with ((kind ++ ":") ++ identifier)
      by (now rewrite append_assoc).
    rewrite suffixFrom_append, Hei, Hl. reflexivity.
Qed.

(** X16.  The match of a chat key.  [matchAgentKey kind key] yields a
    channel and an identifier exactly when [key] reads
    [agent:<agent>:<channel>:<kind>:<identifier>] with an agent and a
    channel that are not empty and hold no colon, and an identifier that is
    not empty and holds no line terminator; they are the channel and the
    identifier it yields.  The identifier may hold colons. *)
Theorem matchAgentKey_spec (kind key channel identifier : string) :
  matchAgentKey kind key = Some (channel, identifier) <->
  exists agent,
    key = "agent:" ++ agent ++ ":" ++ channel ++ ":" ++ kind ++ ":" ++ identifier /\
    agent <> "" /\ hasColon agent = false /\
    channel <> "" /\ hasColon channel = false /\
    identifier <> "" /\ hasLineTerminator identifier = false.
Proof. exact (matchAgentKey_iff kind key channel identifier). Qed.

(** *** Names of session keys *)

Section NamesFacts.

Variable toUpperCase : string -> string.
Variable memberText : string -> string.

Lemma append_not_empty_r (a b : string) : b <> "" -> a ++ b <> "".
Proof.
  intros Hb H. destruct a; simpl in H; [auto | discriminate].
Qed.

Lemma append_not_empty_l (a b : string) : a <> "" -> a ++ b <> "".
Proof.
  intros Ha H. destruct a; simpl in H; [auto | discriminate].
Qed.

Lemma main_keys (key : string) :
  String.eqb key "main" || String.eqb key "agent:main:main" = true ->
  key = "main" \/ key = "agent:main:main".
Proof.
  rewrite orb_true_iff, !String.eqb_eq. auto.
Qed.

(** The prefix and the fallback name by the markers that the key holds. *)
Lemma parseSessionKey_prefix (key : string) :
  let info := (Session.parseSessionKey toUpperCase memberText) key in
  (prefix info = "Subagent:" <-> includes key ":subagent:" = true)
  /\ (prefix info = "Cron:" <->
      includes key ":subagent:" = false /\ includes key ":cron:" = true)
  /\ (prefix info = "" <->
      includes key ":subagent:" = false /\ includes key ":cron:" = false)
  /\ (fallbackName info = "" <-> key = "").
Proof.
  cbv zeta. unfold Session.parseSessionKey.
  destruct (String.eqb key "main" || String.eqb key "agent:main:main") eqn:Hmain.
  { destruct (main_keys key Hmain) as [-> | ->]; cbn;
      repeat split; intros; try discriminate; try tauto;
      try (destruct H; discriminate). }
  destruct (includes key ":subagent:") eqn:Hsub.
  { cbn. repeat split; intros; try discriminate; try tauto;
      try (destruct H; discriminate).
    subst key. discriminate. }
  destruct (includes key ":cron:") eqn:Hcron.
  { cbn. repeat split; intros; try discriminate; try tauto;
      try (destruct H; discriminate).
    subst key. discriminate. }
  assert (forall info : SessionKeyInfo,
            prefix info = "" ->
            (fallbackName info = "" <-> key = "") ->
            (prefix info = "Subagent:" <-> false = true)
            /\ (prefix info = "Cron:" <-> false = false /\ false = true)
            /\ (prefix info = "" <-> false = false /\ false = false)
            /\ (fallbackName info = "" <-> key = "")) as Hplain.
  { intros info Hp Hf. rewrite Hp.
    repeat split; intros; try discriminate; try tauto;
      try (destruct H; discriminate); apply Hf; assumption. }
  destruct (matchAgentKey "direct" key) as [[channel identifier]|] eqn:Hd.
  { apply Hplain; [reflexivity|]. cbn [fallbackName]. split.
    - intros H. exfalso. revert H. apply append_not_empty_r.
      apply append_not_empty_l. discriminate.
    - intros ->. discriminate. }
  destruct (matchAgentKey "group" key) as [[channel identifier]|] eqn:Hg.
  { apply Hplain; [reflexivity|]. cbn [fallbackName]. split.
    - intros H. exfalso. revert H. apply append_not_empty_r. discriminate.
    - intros ->. discriminate. }
  destruct (legacyChannelLabel CHANNEL_LABELS key) as [label|] eqn:Hl.
  { apply Hplain; [reflexivity|]. cbn [fallbackName]. split.
    - intros H. exfalso. revert H. apply append_not_empty_r. discriminate.
    - intros ->. discriminate. }
  apply Hplain; [reflexivity|]. cbn [fallbackName]. tauto.
Qed.

(** X17.  The type of a session key.  The prefix that [parseSessionKey]
    gives is [Subagent:] exactly for the keys that hold [:subagent:], [Cron:]
    exactly for those that hold [:cron:] and not [:subagent:], and empty for
    all others; the fallback name is empty for the empty key only. *)
Theorem parseSessionKey_classifies (key : string) :
  let info := (Session.parseSessionKey toUpperCase memberText) key in
  (prefix info = "Subagent:" <-> includes key ":subagent:" = true)
  /\ (prefix info = "Cron:" <->
      includes key ":subagent:" = false /\ includes key ":cron:" = true)
  /\ (prefix info = "" <->
      includes key ":subagent:" = false /\ includes key ":cron:" = false)
  /\ (fallbackName info = "" <-> key = "").
Proof. exact (parseSessionKey_prefix key). Qed.





(** *** Display names *)

Lemma canonicalize_idempotent (c : ascii) :
  canonicalize (canonicalize c) = canonicalize c.
Proof. destruct c as [[] [] [] [] [] [] [] []]; reflexivity. Qed.

Lemma startsWithIgnoreCase_append (p rest : string) :
  startsWithIgnoreCase (p ++ rest) p = true.
Proof.
  induction p as [|c p IH]; simpl; [now destruct rest|].
  now rewrite Ascii.eqb_refl, IH.
Qed.

Lemma applyTypedPrefix_cases (prefix name : string) :
  (prefix = "" /\ applyTypedPrefix prefix name = name) \/
  (prefix <> "" /\ startsWithIgnoreCase name prefix = true /\
   applyTypedPrefix prefix name = name) \/
  (prefix <> "" /\ startsWithIgnoreCase name prefix = false /\
   applyTypedPrefix prefix name = prefix ++ " " ++ name).
Proof.
  unfold applyTypedPrefix, truthy. destruct prefix as [|c p]; simpl negb; cbv iota.
  - left. auto.
  - right. destruct (startsWithIgnoreCase name (String c p)) eqn:H.
    + left. split; [discriminate|]. split; reflexivity.
    + right. split; [discriminate|]. split; reflexivity.
Qed.

(** What [applyTypedPrefix] returns begins with the prefix, and a second
    application changes nothing. *)
Lemma applyTypedPrefix_idem (prefix name : string) :
  (applyTypedPrefix prefix name = name \/
   applyTypedPrefix prefix name = prefix ++ " " ++ name)
  /\ startsWithIgnoreCase (applyTypedPrefix prefix name) prefix = true
  /\ applyTypedPrefix prefix (applyTypedPrefix prefix name)
     = applyTypedPrefix prefix name.
Proof.
  destruct (applyTypedPrefix_cases prefix name)
    as [[-> ->] | [(Hp & Hs & ->) | (Hp & Hs & ->)]].
  - repeat split; auto. now destruct name.
  - split; [auto|]. split; [exact Hs|].
    unfold applyTypedPrefix. rewrite Hs. now destruct (truthy prefix).
  - split; [auto|].
    assert (startsWithIgnoreCase (prefix ++ " " ++ name) prefix = true) as Hq
      by apply startsWithIgnoreCase_append.
    split; [exact Hq|].
    unfold applyTypedPrefix. rewrite Hq. now destruct (truthy prefix).
Qed.

(** X19.  The typed prefix is put before a name once.  What
    [applyTypedPrefix] returns is the name, or the prefix, a space and the
    name; it begins with the prefix, letters compared without regard to
    case; and applying the prefix to it again changes nothing. *)
Theorem applyTypedPrefix_once (prefix name : string) :
  (applyTypedPrefix prefix name = name \/
   applyTypedPrefix prefix name = prefix ++ " " ++ name)
  /\ startsWithIgnoreCase (applyTypedPrefix prefix name) prefix = true
  /\ applyTypedPrefix prefix (applyTypedPrefix prefix name)
     = applyTypedPrefix prefix name.
Proof. exact (applyTypedPrefix_idem prefix name). Qed.

Lemma trimmedField_none (field : SessionRow -> option string) :
  trimmedField field None = "".
Proof. reflexivity. Qed.

Lemma applyTypedPrefix_not_empty (prefix name : string) :
  name <> "" -> applyTypedPrefix prefix name <> "".
Proof.
  intros Hn.
  destruct (applyTypedPrefix_cases prefix name)
    as [[_ ->] | [(_ & _ & ->) | (_ & _ & ->)]]; auto.
  apply append_not_empty_r, append_not_empty_r, Hn.
Qed.

(** How a display name comes about. *)
Lemma resolveSessionDisplayName_cases (key : string) (row : option SessionRow) :
  (Session.resolveSessionDisplayName toUpperCase memberText) key row = fallbackName ((Session.parseSessionKey toUpperCase memberText) key) \/
  exists text,
    text <> "" /\ text <> key /\
    (text = trimmedField rowLabel row \/ text = trimmedField rowDisplayName row) /\
    (Session.resolveSessionDisplayName toUpperCase memberText) key row
    = applyTypedPrefix (prefix ((Session.parseSessionKey toUpperCase memberText) key)) text.
Proof.
  unfold Session.resolveSessionDisplayName.
  destruct (truthy (trimmedField rowLabel row)
            && negb (String.eqb (trimmedField rowLabel row) key)) eqn:Hl.
  - right. exists (trimmedField rowLabel row).
    apply andb_true_iff in Hl. destruct Hl as [Ht Hk].
    apply negb_true_iff, String.eqb_neq in Hk.
    unfold truthy in Ht. apply negb_true_iff, isEmpty_false in Ht. auto.
  - destruct (truthy (trimmedField rowDisplayName row)
              && negb (String.eqb (trimmedField rowDisplayName row) key)) eqn:Hd.
    + right. exists (trimmedField rowDisplayName row).
      apply andb_true_iff in Hd. destruct Hd as [Ht Hk].
      apply negb_true_iff, String.eqb_neq in Hk.
      unfold truthy in Ht. apply negb_true_iff, isEmpty_false in Ht. auto.
    + left. reflexivity.
Qed.

(** X20.  The display name of a session.  Without a row, or with a row
    whose label and display name are missing, blank or the key itself, it
    is the fallback name of the key; a label that is not blank and is not
    the key goes before the display name.  A key that is not empty never
    gets an empty name, and the name of a key that holds [:subagent:] always
    begins with [Subagent:], letters compared without regard to case. *)
Theorem resolveSessionDisplayName_spec (key : string) (row : option SessionRow) :
  let shown := (Session.resolveSessionDisplayName toUpperCase memberText) key row in
  let usable text := truthy text && negb (String.eqb text key) in
  (usable (trimmedField rowLabel row) = false ->
   usable (trimmedField rowDisplayName row) = false ->
   shown = fallbackName ((Session.parseSessionKey toUpperCase memberText) key))
  /\ (Session.resolveSessionDisplayName toUpperCase memberText) key None = fallbackName ((Session.parseSessionKey toUpperCase memberText) key)
  /\ (usable (trimmedField rowLabel row) = true ->
      shown = applyTypedPrefix (prefix ((Session.parseSessionKey toUpperCase memberText) key))
                (trimmedField rowLabel row))
  /\ (key <> "" -> shown <> "")
  /\ (includes key ":subagent:" = true ->
      startsWithIgnoreCase shown "Subagent:" = true).
Proof.
  cbv zeta. split; [|split; [|split; [|split]]].
  - intros Hl Hd. unfold Session.resolveSessionDisplayName. now rewrite Hl, Hd.
  - reflexivity.
  - intros Hl. unfold Session.resolveSessionDisplayName. now rewrite Hl.
  - intros Hk.
    destruct (resolveSessionDisplayName_cases key row)
      as [-> | (text & Ht & _ & _ & ->)].
    + intros H. apply Hk. now apply (parseSessionKey_prefix key).
    + now apply applyTypedPrefix_not_empty.
  - intros Hsub.
    assert (prefix ((Session.parseSessionKey toUpperCase memberText) key) = "Subagent:") as Hp
      by now apply (parseSessionKey_prefix key).
    destruct (resolveSessionDisplayName_cases key row)
      as [-> | (text & _ & _ & _ & ->)].
    + unfold Session.parseSessionKey in *.
      destruct (String.eqb key "main" || String.eqb key "agent:main:main");
        [discriminate|].
      rewrite Hsub. reflexivity.
    + rewrite Hp. apply applyTypedPrefix_idem.
Qed.

(** *** The options of the session selector *)

Lemma seenHas_In (seen : list string) (key : string) :
  seenHas seen key = true <-> In key seen.
Proof.
  unfold seenHas. rewrite existsb_exists. split.
  - intros (x & Hin & Hx). apply String.eqb_eq in Hx. now subst.
  - intros Hin. exists key. split; [exact Hin | apply String.eqb_refl].
Qed.

Lemma seenHas_not_In (seen : list string) (key : string) :
  seenHas seen key = false <-> ~ In key seen.
Proof.
  rewrite <- seenHas_In. destruct (seenHas seen key); split; congruence.
Qed.

(** The keys of the loop over the rows: the keys seen are the keys of the
    options, which stay distinct; the loop adds the keys of the rows. *)
Lemma addRows_keys (rows : list SessionRow) :
  forall (seen : list string) (options : list SessionOption),
  (forall k, In k seen <-> In k (map optKey options)) ->
  NoDup (map optKey options) ->
  NoDup (map optKey ((Session.addRows toUpperCase memberText) seen options rows)) /\
  (forall k, In k (map optKey ((Session.addRows toUpperCase memberText) seen options rows)) <->
             In k (map optKey options) \/ In k (map rowKey rows)) /\
  (exists added, (Session.addRows toUpperCase memberText) seen options rows = (options ++ added)%list).
Proof.
  induction rows as [|s rest IH]; intros seen options Hseen Hnd; cbn [Session.addRows].
  - split; [exact Hnd|]. split; [cbn; tauto|]. exists []. now rewrite app_nil_r.
  - destruct (seenHas seen (rowKey s)) eqn:Hs; cbn [negb].
    + destruct (IH seen options Hseen Hnd) as (H1 & H2 & H3).
      split; [exact H1|]. split; [|exact H3].
      intros k. rewrite H2. cbn. apply seenHas_In, Hseen in Hs.
      split; [tauto|]. intros [H | [<- | H]]; auto.
    + apply seenHas_not_In in Hs.
      set (added := {| optKey := rowKey s;
                       optDisplayName :=
                         (Session.resolveSessionDisplayName toUpperCase memberText) (rowKey s) (Some s) |}).
      assert (forall k, In k (rowKey s :: seen) <->
                        In k (map optKey (options ++ [added]))) as Hseen'.
      { intros k. rewrite map_app, in_app_iff. cbn. rewrite Hseen. tauto. }
      assert (NoDup (map optKey (options ++ [added]))) as Hnd'.
      { rewrite map_app. cbn. apply NoDup_app.
        - exact Hnd.
        - repeat constructor. cbn. tauto.
        - intros k Hk [<- | []]. apply Hs, Hseen, Hk. }
      destruct (IH _ _ Hseen' Hnd') as (H1 & H2 & (more & H3)).
      split; [exact H1|]. split.
      * intros k. rewrite H2, map_app, in_app_iff. cbn. tauto.
      * exists (added :: more). rewrite H3, <- app_assoc. reflexivity.
Qed.

(** The keys of the options of the selector. *)
Lemma sessionOptions_keys
    (sessionKey : string) (result : option SessionsListResult)
    (mainSessionKey : option string) :
  let options := (Session.resolveSessionOptions toUpperCase memberText) sessionKey result mainSessionKey in
  let keys := map optKey options in
  NoDup keys
  /\ (forall k,
        In k keys <->
        (mainSessionKey = Some k /\ k <> "") \/ k = sessionKey \/
        (exists rows row,
           rowsOf result = Some rows /\ In row rows /\ rowKey row = k))
  /\ hd_error keys =
     Some (match mainSessionKey with
           | Some k => if truthy k then k else sessionKey
           | None => sessionKey
           end).
Proof.
  cbv zeta. unfold Session.resolveSessionOptions.
  set (main := match mainSessionKey with
               | Some k => if truthy k then Some k else None
               | None => None
               end).
  assert (forall k, main = Some k <-> mainSessionKey = Some k /\ k <> "") as Hmain.
  { intros k. unfold main, truthy. destruct mainSessionKey as [m|].
    - destruct (isEmpty m) eqn:He; cbn.
      + apply isEmpty_true in He. subst m. split; [discriminate|].
        intros [H Hk]. injection H as <-. congruence.
      + apply isEmpty_false in He. split.
        * intros H. injection H as <-. auto.
        * intros [H _]. exact H.
    - split; [discriminate | intros [H _]; discriminate]. }
  assert (match mainSessionKey with
          | Some k => if truthy k then k else sessionKey
          | None => sessionKey
          end = match main with Some k => k | None => sessionKey end) as ->.
  { unfold main. destruct mainSessionKey as [m|]; [|reflexivity].
    now destruct (truthy m). }
  clearbody main.
  set (resolvedMain := andThen main (findRow (rowsOf result))).
  set (resolvedCurrent := findRow (rowsOf result) sessionKey).
  clearbody resolvedMain resolvedCurrent.
  assert (forall (seen : list string) (options : list SessionOption) (first : string),
            (forall k, In k seen <-> In k (map optKey options)) ->
            NoDup (map optKey options) ->
            hd_error (map optKey options) = Some first ->
            (forall k, In k (map optKey options) <-> main = Some k \/ k = sessionKey) ->
            let out := match rowsOf result with
                       | Some rows => (Session.addRows toUpperCase memberText) seen options rows
                       | None => options
                       end in
            NoDup (map optKey out)
            /\ (forall k, In k (map optKey out) <->
                  (mainSessionKey = Some k /\ k <> "") \/ k = sessionKey \/
                  (exists rows row,
                     rowsOf result = Some rows /\ In row rows /\ rowKey row = k))
            /\ hd_error (map optKey out) = Some first) as Hloop.
  { intros seen options first Hseen Hnd Hhd Hkeys. cbv zeta.
    destruct (rowsOf result) as [rows|].
    - destruct (addRows_keys rows seen options Hseen Hnd) as (H1 & H2 & (added & H3)).
      split; [exact H1|]. split.
      + intros k. rewrite H2, Hkeys, Hmain, in_map_iff. split.
        * intros [[H | H] | (row & Hk & Hin)]; auto.
          right. right. exists rows, row. auto.
        * intros [H | [H | (rows' & row & Hr & Hin & Hk)]]; auto.
          injection Hr as <-. right. exists row. auto.
      + rewrite H3, map_app. destruct (map optKey options); [discriminate|].
        exact Hhd.
    - split; [exact Hnd|]. split; [|exact Hhd].
      intros k. rewrite Hkeys, Hmain. split.
      + intros [H | H]; auto.
      + intros [H | [H | (rows' & row & Hr & _)]]; auto. discriminate. }
  destruct main as [m|].
  - destruct (seenHas [m] sessionKey) eqn:Hs; cbn [negb].
    + apply seenHas_In in Hs. destruct Hs as [<- | []].
      apply Hloop.
      * intros k. reflexivity.
      * cbn. repeat constructor. cbn. tauto.
      * reflexivity.
      * intros k. cbn. split; [intros [<- | []]; auto|].
        intros [H | ->]; [injection H as <-|]; auto.
    + apply seenHas_not_In in Hs. apply Hloop.
      * intros k. cbn. tauto.
      * cbn. repeat constructor; cbn; [|tauto].
        intros [H | []]. apply Hs. cbn. auto.
      * reflexivity.
      * intros k. cbn. split.
        -- intros [<- | [<- | []]]; auto.
        -- intros [H | ->]; [injection H as <-|]; auto.
  - cbn [seenHas existsb negb]. apply Hloop.
    + intros k. cbn. tauto.
    + cbn. repeat constructor. cbn. tauto.
    + reflexivity.
    + intros k. cbn. split.
      * intros [<- | []]. auto.
      * intros [H | ->]; [discriminate | auto].
Qed.

(** X21.  The keys of the session selector.  The options list no key
    twice.  They list the main session key when one is given that is not
    empty, the current session key, and the keys of the rows of the result,
    and no other; the first option is the main session when there is one
    and the current session otherwise, so the list is never empty and
    always offers the current session. *)
Theorem resolveSessionOptions_keys
    (sessionKey : string) (result : option SessionsListResult)
    (mainSessionKey : option string) :
  let options := (Session.resolveSessionOptions toUpperCase memberText) sessionKey result mainSessionKey in
  let keys := map optKey options in
  NoDup keys
  /\ (forall k,
        In k keys <->
        (mainSessionKey = Some k /\ k <> "") \/ k = sessionKey \/
        (exists rows row,
           rowsOf result = Some rows /\ In row rows /\ rowKey row = k))
  /\ hd_error keys =
     Some (match mainSessionKey with
           | Some k => if truthy k then k else sessionKey
           | None => sessionKey
           end).
Proof. exact (sessionOptions_keys sessionKey result mainSessionKey). Qed.

Lemma find_first_row (processed rest : list SessionRow) (s : SessionRow) :
  (forall r, In r processed -> rowKey r <> rowKey s) ->
  find (fun r => String.eqb (rowKey r) (rowKey s)) (processed ++ s :: rest)
  = Some s.
Proof.
  induction processed as [|p processed IH]; intros Hnot; cbn.
  - now rewrite String.eqb_refl.
  - destruct (String.eqb_spec (rowKey p) (rowKey s)) as [E|_].
    + exfalso. apply (Hnot p); [now left | exact E].
    + apply IH. intros r Hin. apply Hnot. now right.
Qed.

(** The names of the loop over the rows: every option carries the name
    that the first row with its key gives. *)
Lemma addRows_names (all : list SessionRow) :
  forall (remaining processed : list SessionRow) (seen : list string)
         (options : list SessionOption),
  all = (processed ++ remaining)%list ->
  (forall r, In r processed -> In (rowKey r) seen) ->
  (forall o, In o options ->
     optDisplayName o =
     (Session.resolveSessionDisplayName toUpperCase memberText) (optKey o) (findRow (Some all) (optKey o))) ->
  forall o, In o ((Session.addRows toUpperCase memberText) seen options remaining) ->
    optDisplayName o =
    (Session.resolveSessionDisplayName toUpperCase memberText) (optKey o) (findRow (Some all) (optKey o)).
Proof.
  induction remaining as [|s rest IH];
    intros processed seen options Hall Hseen Hok; cbn [Session.addRows];
    [exact Hok|].
  assert (all = ((processed ++ [s]) ++ rest)%list) as Hall'
    by (rewrite <- app_assoc; exact Hall).
  destruct (seenHas seen (rowKey s)) eqn:Hs; cbn [negb].
  - apply (IH (processed ++ [s])%list seen options Hall'); [|exact Hok].
    intros r Hin. apply in_app_iff in Hin. destruct Hin as [Hin | [<- | []]].
    + now apply Hseen.
    + now apply seenHas_In.
  - apply seenHas_not_In in Hs.
    apply (IH (processed ++ [s])%list (rowKey s :: seen) _ Hall').
    + intros r Hin. apply in_app_iff in Hin. destruct Hin as [Hin | [<- | []]].
      * right. now apply Hseen.
      * now left.
    + intros o Hin. apply in_app_iff in Hin. destruct Hin as [Hin | [<- | []]].
      * now apply Hok.
      * cbn [optKey optDisplayName]. unfold findRow, andThen.
        rewrite Hall, find_first_row; [reflexivity|].
        intros r Hin E. apply Hs. rewrite <- E. now apply Hseen.
Qed.

(** X22.  The names of the session selector.  Every option carries the
    display name that its key gets from the first row of the result with
    that key, or without a row when the result has none, whether the option
    stands for the main session, the current session or a row. *)
Theorem resolveSessionOptions_names
    (sessionKey : string) (result : option SessionsListResult)
    (mainSessionKey : option string) (o : SessionOption) :
  In o ((Session.resolveSessionOptions toUpperCase memberText) sessionKey result mainSessionKey) ->
  optDisplayName o =
  (Session.resolveSessionDisplayName toUpperCase memberText) (optKey o) (findRow (rowsOf result) (optKey o)).
Proof.
  unfold Session.resolveSessionOptions.
  set (main := match mainSessionKey with
               | Some k => if truthy k then Some k else None
               | None => None
               end).
  clearbody main.
  assert (forall (seen : list string) (options : list SessionOption),
            (forall o', In o' options ->
               optDisplayName o' =
               (Session.resolveSessionDisplayName toUpperCase memberText) (optKey o')
                 (findRow (rowsOf result) (optKey o'))) ->
            In o match rowsOf result with
                 | Some rows => (Session.addRows toUpperCase memberText) seen options rows
                 | None => options
                 end ->
            optDisplayName o =
            (Session.resolveSessionDisplayName toUpperCase memberText) (optKey o)
              (findRow (rowsOf result) (optKey o))) as Hloop.
  { intros seen options Hok. destruct (rowsOf result) as [rows|]; [|apply Hok].
    apply (addRows_names rows rows [] seen options); [reflexivity | | exact Hok].
    intros r []. }
  destruct main as [m|]; cbn [andThen].
  - destruct (seenHas [m] sessionKey); cbn [negb]; apply Hloop.
    + intros o' [<- | []]. reflexivity.
    + intros o' [<- | [<- | []]]; reflexivity.
  - cbn [seenHas existsb negb]. apply Hloop.
    intros o' [<- | []]. reflexivity.
Qed.

(** *** The main session key *)

Lemma truthy_not_empty (s : string) : truthy s = true <-> s <> "".
Proof. unfold truthy. rewrite negb_true_iff. apply isEmpty_false. Qed.

Lemma trimmedDefault_some (field : SessionDefaultsSnapshot -> option string)
    (hello : option Hello) (k : string) :
  trimmedDefault field hello = Some k -> k <> "" /\ trim k = k.
Proof.
  unfold trimmedDefault.
  destruct (andThen (defaultsOf hello) field) as [raw|]; cbn; [|discriminate].
  destruct (truthy (trim raw)) eqn:Ht; [|discriminate].
  intros H. injection H as <-. split; [now apply truthy_not_empty|].
  apply trim_idempotent.
Qed.

(** X23.  The main session key.  The key that the sidebar opens is never
    empty and is trimmed; it is [main] when [hello] carries no defaults.
    When [resolveMainSessionKey] finds a key it is the key of the sidebar,
    and the selector built with it lists it first; when it finds none, the
    defaults name no session, the result has no row [main], the sidebar
    opens [main] and the selector lists the current session first. *)
Theorem resolveMainSessionKey_spec
    (hello : option Hello) (result : option SessionsListResult)
    (sessionKey : string) :
  let sidebar := resolveSidebarChatSessionKey hello in
  let main := resolveMainSessionKey hello result in
  let options := (Session.resolveSessionOptions toUpperCase memberText) sessionKey result main in
  sidebar <> "" /\ trim sidebar = sidebar
  /\ (defaultsOf hello = None -> sidebar = "main")
  /\ (forall k, main = Some k ->
        k = sidebar /\ hd_error (map optKey options) = Some k)
  /\ (main = None ->
      sidebar = "main" /\ hasMainRow result = false /\
      hd_error (map optKey options) = Some sessionKey).
Proof.
  cbv zeta.
  pose proof (sessionOptions_keys sessionKey result
                (resolveMainSessionKey hello result)) as (_ & _ & Hhd).
  unfold resolveSidebarChatSessionKey, resolveMainSessionKey in *.
  destruct (trimmedDefault mainSessionKey hello) as [k1|] eqn:H1.
  - destruct (trimmedDefault_some _ _ _ H1) as [Hne Htrim].
    split; [exact Hne|]. split; [exact Htrim|]. split.
    + intros Hd. unfold trimmedDefault in H1. rewrite Hd in H1. discriminate.
    + split; [|discriminate]. intros k H. injection H as <-.
      split; [reflexivity|]. rewrite Hhd.
      apply truthy_not_empty in Hne. now rewrite Hne.
  - destruct (trimmedDefault mainKey hello) as [k2|] eqn:H2.
    + destruct (trimmedDefault_some _ _ _ H2) as [Hne Htrim].
      split; [exact Hne|]. split; [exact Htrim|]. split.
      * intros Hd. unfold trimmedDefault in H2. rewrite Hd in H2. discriminate.
      * split; [|discriminate]. intros k H. injection H as <-.
        split; [reflexivity|]. rewrite Hhd.
        apply truthy_not_empty in Hne. now rewrite Hne.
    + split; [discriminate|]. split; [reflexivity|]. split; [reflexivity|].
      destruct (hasMainRow result).
      * split; [|discriminate]. intros k H. injection H as <-.
        split; [reflexivity|]. exact Hhd.
      * split; [discriminate|]. intros _. auto.
Qed.

End NamesFacts.

End SessionFacts.

(** ** More scenarios *)

(** A witness of X2: a disabled feature stops a capture in progress. *)
Lemma refresh_off_stops_witness :
  let s := capturing heyClaw "hey claw what time is it" 1000 in
  let r := refresh unit true disabledSettings true 1500 startSucceeds s in
  true && swabbleEnabled disabledSettings && true = false /\
  isCapturing s = true /\
  isStopped (stateOf r) /\
  effectsOf r = [Log RuntimeStopped; OverlayDismiss].
Proof.
  cbv zeta. split; [reflexivity|]. split; [reflexivity|].
  destruct (@refresh_off_stops unit
              (capturing heyClaw "hey claw what time is it" 1000) true
              disabledSettings true 1500 startSucceeds eq_refl)
    as (_ & Hstopped & _).
  split; [exact Hstopped|]. vm_compute. reflexivity.
Defined.

(** A witness of X3: the audio engine fails to start while the runtime
    listens. *)
Lemma start_failure_leaves_nothing_half_started_witness :
  let r := start unit claw 2000 engineFails (listening heyClaw 0) in
  recognizerCreated engineFails && recognizerAvailable engineFails
    && engineStarts engineFails = false /\
  isStopped (stateOf r) /\
  lastHeard (stateOf r) = Some 0.
Proof.
  cbv zeta. split; [reflexivity|].
  destruct (@start_failure_leaves_nothing_half_started unit
              (listening heyClaw 0) claw 2000 engineFails eq_refl)
    as (Hengine & _ & Hlast & _).
  split; [exact (proj1 (Hengine eq_refl))|].
  rewrite Hlast. reflexivity.
Defined.

(** A witness of X4: new settings arrive during a capture. *)
Lemma refresh_restarts_on_change_witness :
  let s := capturing heyClaw "hey claw what time is it" 1000 in
  let r := refresh unit true clawSettings true 1500 startSucceeds s in
  swabbleEnabled clawSettings = true /\
  currentConfig s <> Some (snapshotConfig clawSettings) /\
  currentConfig (stateOf r) = Some (snapshotConfig clawSettings) /\
  isCapturing (stateOf r) = false /\
  effectsOf r = [Log RuntimeStopped; OverlayDismiss; Log RuntimeStarted].
Proof.
  cbv zeta. split; [reflexivity|].
  assert (currentConfig (capturing heyClaw "hey claw what time is it" 1000)
          <> Some (snapshotConfig clawSettings)) as Hneq
    by (vm_compute; discriminate).
  split; [exact Hneq|].
  destruct (@refresh_restarts_on_change unit
              (capturing heyClaw "hey claw what time is it" 1000) clawSettings
              1500 startSucceeds eq_refl (or_introl Hneq) eq_refl eq_refl eq_refl)
    as (He & Hc & _ & _ & Hi & _).
  auto.
Defined.

(** The capture of "hey claw what time is it" is a reachable state. *)
Lemma capturing_reachable :
  @Reachable unit (capturing heyClaw "hey claw what time is it" 1000).
Proof.
  assert (capturing heyClaw "hey claw what time is it" 1000
          = @perform unit
              (CallHandleRecognition (Some "hey claw what time is it")
                 None heyClaw 1000 1000)
              (@perform unit (CallStart heyClaw 0 startSucceeds) initial))
    as E by (vm_compute; reflexivity).
  rewrite E. apply ReachableCall, ReachableCall, ReachableInitial.
Qed.

(** A witness of X5. *)
Lemma reachable_lifecycle_coherent_witness :
  let s := capturing heyClaw "hey claw what time is it" 1000 in
  @Reachable unit s /\
  recognitionTask s = Some heyClaw /\
  currentConfig s = Some heyClaw /\
  audioEngineRunning s = true.
Proof.
  cbv zeta. split; [exact capturing_reachable|].
  destruct (@reachable_lifecycle_coherent unit _ capturing_reachable)
    as (Htask & _ & _ & Hengine).
  vm_compute. auto.
Defined.


(** A witness of X7: a transcript without a trigger while listening. *)
Lemma handleRecognition_ignored_witness :
  let s := listening heyClaw 0 in
  isCapturing s = false /\
  matches "good morning" (triggers heyClaw) = false /\
  handleRecognition unit (Some "good morning") None heyClaw 700 700 s
  = (tt, set_lastHeard (Some 700) s, []).
Proof.
  cbv zeta. split; [reflexivity|]. split; [reflexivity|].
  exact (@handleRecognition_ignored unit (listening heyClaw 0) "good morning"
           None heyClaw 700 700 eq_refl (or_introl eq_refl)).
Defined.



(** A witness of X11: transcripts keep arriving, the turn at 9000 ends the
    capture begun at 1000. *)
Lemma monitorCapture_hard_stop_witness :
  let s := capturing heyClaw "hey claw what time is it" 1000 in
  let ticks :=
    [{| arrivals := [update "hey claw what time is it now" 1100];
        pollNow := 1200; pollFinalizeNow := 1200 |};
     {| arrivals := [update "hey claw what time is it now please" 8950];
        pollNow := 9000; pollFinalizeNow := 9001 |}] in
  let r := monitorCapture unit heyClaw tt 1000 ticks s in
  isCapturing s = true /\
  captureStartedAt s = Some 1000 /\
  Exists (fun t => 1000 + 8000 <= pollNow t) ticks /\
  valueOf r = None /\ isCapturing (stateOf r) = false.
Proof.
  cbv zeta.
  assert (Exists (fun t => 1000 + 8000 <= pollNow t)
            [{| arrivals := [update "hey claw what time is it now" 1100];
                pollNow := 1200; pollFinalizeNow := 1200 |};
             {| arrivals := [update "hey claw what time is it now please" 8950];
                pollNow := 9000; pollFinalizeNow := 9001 |}]) as Hex
    by (apply Exists_cons_tl, Exists_cons_hd; apply Z.le_refl).
  split; [reflexivity|]. split; [reflexivity|]. split; [exact Hex|].
  exact (@monitorCapture_hard_stop unit
           (capturing heyClaw "hey claw what time is it" 1000) heyClaw tt
           1000 1000 _ eq_refl eq_refl Hex).
Defined.

(** A witness of X12: silence from 1000 on, turns at 2000 and 2200. *)
Lemma monitorCapture_silence_witness :
  let s := capturing heyClaw "hey claw what time is it" 1000 in
  let r := monitorCapture unit heyClaw tt 1000 [quietTick 2000; quietTick 2200] s in
  isCapturing s = true /\
  captureStartedAt s = Some 1000 /\
  lastHeard s = Some 1000 /\
  silenceWindow <= timeIntervalSince 2000 1000 /\
  silenceWindow <= timeIntervalSince 2200 1000 /\
  valueOf r = None /\ isCapturing (stateOf r) = false.
Proof.
  cbv zeta.
  assert (silenceWindow <= timeIntervalSince 2000 1000) as H1
    by (vm_compute; discriminate).
  assert (silenceWindow <= timeIntervalSince 2200 1000) as H2
    by (vm_compute; discriminate).
  do 3 (split; [reflexivity|]). split; [exact H1|]. split; [exact H2|].
  exact (proj1 (@monitorCapture_silence unit
                  (capturing heyClaw "hey claw what time is it" 1000) heyClaw tt
                  1000 1000 1000 (quietTick 2000) (quietTick 2200) []
                  eq_refl eq_refl eq_refl eq_refl H1)
           eq_refl H2).
Defined.


(** A witness of X22: the first row of a key names it. *)
Lemma resolveSessionOptions_names_witness :
  let options :=
    Session.resolveSessionOptions upperAscii nativeText
      "agent:main:subagent:research" sampleResult (Some "main") in
  let o := {| Session.optKey := "agent:main:telegram:direct:alice";
              Session.optDisplayName := "Alice" |} in
  In o options /\
  map Session.optKey options =
    ["main"; "agent:main:subagent:research"; "agent:main:telegram:direct:alice"] /\
  map Session.optDisplayName options =
    ["Main Session"; "Subagent: research"; "Alice"] /\
  Session.optDisplayName o =
  Session.resolveSessionDisplayName upperAscii nativeText (Session.optKey o)
    (Session.findRow (Session.rowsOf sampleResult) (Session.optKey o)).
Proof.
  cbv zeta.
  assert (In {| Session.optKey := "agent:main:telegram:direct:alice";
                Session.optDisplayName := "Alice" |}
            (Session.resolveSessionOptions upperAscii nativeText
               "agent:main:subagent:research" sampleResult (Some "main")))
    as Hin by (vm_compute; auto).
  split; [exact Hin|]. split; [vm_compute; reflexivity|].
  split; [vm_compute; reflexivity|].
  exact (@SessionFacts.resolveSessionOptions_names upperAscii nativeText
           "agent:main:subagent:research" sampleResult (Some "main") _ Hin).
Defined.
